(** * Lighthouse CI assertions: a shallow embedding of
      packages/utils/src/assertions.js and the properties of its
      assertion-resolution and aggregation logic. *)

From stdpp Require Import base numbers list strings gmap sorting.
From Stdlib Require Import QArith Qcanon Ascii.

Local Open Scope string_scope.
Local Open Scope Qc_scope.

(** ** JavaScript numbers

    The source computes on IEEE doubles.  The model keeps NaN and the two
    infinities as constructors of their own and takes the finite doubles as
    exact rationals: rounding, overflow of finite arithmetic and the sign of
    zero are not modelled.  [Qc] is the canonical form of the rationals, so
    Leibniz equality on [num] is numeric equality. *)

Inductive num : Type :=
  | Fin (q : Qc)
  | PInf
  | NInf
  | NaN.

#[global] Instance num_eq_dec : EqDecision num.
Proof. solve_decision. Defined.

Definition num_of_Z (z : Z) : num := Fin (Q2Qc (inject_Z z)).
Definition num_of_nat (n : nat) : num := num_of_Z (Z.of_nat n).

Definition zero : num := num_of_Z 0.
Definition one : num := num_of_Z 1.
Definition two : num := num_of_Z 2.

(** [a + b] on numbers. *)
Definition num_add (a b : num) : num :=
  match a, b with
  | NaN, _ | _, NaN => NaN
  | Fin x, Fin y => Fin (x + y)
  | PInf, NInf | NInf, PInf => NaN
  | PInf, _ | _, PInf => PInf
  | NInf, _ | _, NInf => NInf
  end.

(** [a - b] on numbers. *)
Definition num_sub (a b : num) : num :=
  match a, b with
  | NaN, _ | _, NaN => NaN
  | Fin x, Fin y => Fin (x - y)
  | PInf, PInf | NInf, NInf => NaN
  | PInf, _ | _, NInf => PInf
  | NInf, _ | _, PInf => NInf
  end.

(** [a / b] on numbers. *)
Definition num_div (a b : num) : num :=
  match a, b with
  | NaN, _ | _, NaN => NaN
  | Fin x, Fin y =>
      if bool_decide (y = 0) then
        if bool_decide (x = 0) then NaN
        else if bool_decide (0 < x) then PInf else NInf
      else Fin (x / y)
  | Fin _, _ => Fin 0
  | PInf, Fin y => if bool_decide (0 ≤ y) then PInf else NInf
  | NInf, Fin y => if bool_decide (0 ≤ y) then NInf else PInf
  | _, _ => NaN
  end.

(** [a <= b], [a >= b] and [a === b] on numbers; every comparison with NaN
    is false. *)
Definition num_leb (a b : num) : bool :=
  match a, b with
  | NaN, _ | _, NaN => false
  | Fin x, Fin y => bool_decide (x ≤ y)
  | NInf, _ | _, PInf => true
  | _, _ => false
  end.

Definition num_geb (a b : num) : bool := num_leb b a.

Definition num_eqb (a b : num) : bool :=
  match a, b with
  | Fin x, Fin y => bool_decide (x = y)
  | PInf, PInf | NInf, NInf => true
  | _, _ => false
  end.

(** [v > 0], the test a sort applies to the value of its comparator
    (a NaN counts as 0). *)
Definition num_pos (v : num) : bool :=
  match v with
  | Fin q => bool_decide (0 < q)
  | PInf => true
  | _ => false
  end.

(** [Math.min(...values)] and [Math.max(...values)]: a NaN among the
    arguments gives NaN; no argument gives +Infinity, respectively
    -Infinity. *)
Definition min2 (a b : num) : num :=
  match a, b with
  | NaN, _ | _, NaN => NaN
  | _, _ => if num_leb a b then a else b
  end.

Definition max2 (a b : num) : num :=
  match a, b with
  | NaN, _ | _, NaN => NaN
  | _, _ => if num_leb a b then b else a
  end.

Definition Math_min (values : list num) : num := foldr min2 PInf values.
Definition Math_max (values : list num) : num := foldr max2 NInf values.

(** [x === undefined] for a value that may be absent. *)
Definition isUndefined {A : Type} (x : option A) : bool :=
  match x with
  | None => true
  | Some _ => false
  end.

(** [ToNumber] of a value that is a number or undefined. *)
Definition toNumber (x : option num) : num := default NaN x.

(** [arr[i]] for an integer index: undefined out of range. *)
Definition index {A : Type} (arr : list A) (i : Z) : option A :=
  if bool_decide (i < 0)%Z then None else arr !! Z.to_nat i.

(** [values.slice().sort(compare)]: an insertion sort, which is stable, as
    the language requires of [sort].  [y] goes in front of [x] only when
    [compare(x, y) > 0]. *)
Fixpoint sort_insert (compare : num → num → num) (x : num) (l : list num)
  : list num :=
  match l with
  | [] => [x]
  | y :: l' =>
      if num_pos (compare x y) then y :: sort_insert compare x l'
      else x :: y :: l'
  end.

Definition sort (compare : num → num → num) (l : list num) : list num :=
  foldr (sort_insert compare) [] l.

(** ** Data model *)

(** One row of a [details.items] table (budget rows, resource-summary
    rows).  A numeric field is [None] when the row does not carry it. *)
Record Item : Type := {
  resourceType : string;
  size : option num;
  sizeOverBudget : option num;
  requestCount : option num;
  countOverBudget : option string;
}.

Record Details : Type := {
  items : option (list Item);
}.

(** LH.AuditResult.  [score] and [numericValue] are [None] when they are not
    numbers (absent or null). *)
Record AuditResult : Type := {
  score : option num;
  scoreDisplayMode : option string;
  numericValue : option num;
  details : option Details;
  title : option string;
  description : option string;
}.

Record Category : Type := {
  category_score : option num;
}.

(** LH.Result. *)
Record LHR : Type := {
  finalUrl : string;
  categories : gmap string Category;
  audits : gmap string AuditResult;
}.

Inductive AssertionType : Type :=
  | AuditRan
  | MinScore
  | MaxLength
  | MaxNumericValue.

#[global] Instance AssertionType_eq_dec : EqDecision AssertionType.
Proof. solve_decision. Defined.

(** The string each assertion type is in the source. *)
Definition type_name (t : AssertionType) : string :=
  match t with
  | AuditRan => "auditRan"
  | MinScore => "minScore"
  | MaxLength => "maxLength"
  | MaxNumericValue => "maxNumericValue"
  end.

Inductive AggregationMethod : Type :=
  | Optimistic
  | Pessimistic
  | Median
  | MedianRun.

#[global] Instance AggregationMethod_eq_dec : EqDecision AggregationMethod.
Proof. solve_decision. Defined.

Inductive AssertionFailureLevel : Type :=
  | LevelOff
  | LevelWarn
  | LevelError.

#[global] Instance AssertionFailureLevel_eq_dec
  : EqDecision AssertionFailureLevel.
Proof. solve_decision. Defined.

Record AssertionOptions : Type := {
  minScore : option num;
  maxLength : option num;
  maxNumericValue : option num;
  aggregationMethod : option AggregationMethod;
}.

Definition noOptions : AssertionOptions :=
  {| minScore := None; maxLength := None; maxNumericValue := None;
     aggregationMethod := None |}.

(** AssertionResult; the fields that the callers add with an object spread
    are [None] until they are set. *)
Record AssertionResult : Type := {
  name : AssertionType;
  operator : string;
  expected : num;
  actual : num;
  values : list num;
  auditProperty : option string;
  auditId : option string;
  level : option AssertionFailureLevel;
  url : option string;
  auditTitle : option string;
  auditDocumentationLink : option string;
}.

Definition mkResult (n : AssertionType) (e a : num) (vs : list num)
  (op : string) : AssertionResult :=
  {| name := n; operator := op; expected := e; actual := a; values := vs;
     auditProperty := None; auditId := None; level := None; url := None;
     auditTitle := None; auditDocumentationLink := None |}.

(** [{...assertion, auditProperty: key}] *)
Definition withAuditProperty (key : string) (r : AssertionResult)
  : AssertionResult :=
  {| name := name r; operator := operator r; expected := expected r;
     actual := actual r; values := values r; auditProperty := Some key;
     auditId := auditId r; level := level r; url := url r;
     auditTitle := auditTitle r;
     auditDocumentationLink := auditDocumentationLink r |}.

(** ** Value getters and operators *)

(** [getAssertionResult] receives defined audit results only (its
    parameter is [LH.AuditResult[]], and [getAssertionResults] hands over
    the results after its test for undefined), so the getters are taken on
    defined results; there [result === undefined] is false. *)
Definition AUDIT_TYPE_VALUE_GETTERS (t : AssertionType) (result : AuditResult)
  : option num :=
  match t with
  | AuditRan => Some one
  | MinScore =>
      match score result with
      | Some s => Some s
      | None =>
          if bool_decide (scoreDisplayMode result = Some "notApplicable")
          then Some one
          else if bool_decide (scoreDisplayMode result = Some "informative")
          then Some zero
          else None
      end
  | MaxLength =>
      d ← details result; its ← items d; Some (num_of_nat (length its))
  | MaxNumericValue => numericValue result
  end.

Definition operator_of (t : AssertionType) : string :=
  match t with
  | AuditRan => "=="
  | MinScore => ">="
  | MaxLength => "<="
  | MaxNumericValue => "<="
  end.

Definition passesFn (t : AssertionType) (actual expected : num) : bool :=
  match t with
  | AuditRan => num_eqb actual expected
  | MinScore => num_geb actual expected
  | MaxLength => num_leb actual expected
  | MaxNumericValue => num_leb actual expected
  end.

Definition AUDIT_TYPE_OPERATORS (t : AssertionType)
  : string * (num → num → bool) :=
  (operator_of t, passesFn t).

Definition isFiniteNumber (x : option num) : bool :=
  match x with
  | Some (Fin _) => true
  | _ => false
  end.

(** [values.filter(isFiniteNumber)]: the guard narrows the elements to
    numbers. *)
Definition filterFinite (values : list (option num)) : list num :=
  omap (λ x, if isFiniteNumber x then x else None) values.

(** ** Aggregation *)

Definition startsWith (s prefix : string) : bool := String.prefix prefix s.

Definition getValueForAggregationMethod (values : list num)
  (aggregationMethod : AggregationMethod) (assertionType : AssertionType)
  : num :=
  match aggregationMethod with
  | Median =>
      let medianIndex := ((Z.of_nat (length values) - 1) `div` 2)%Z in
      let sorted := sort (λ a b, num_sub a b) values in
      if bool_decide (length values `mod` 2 = 1)%nat
      then toNumber (index sorted medianIndex)
      else num_div
             (num_add (toNumber (index sorted medianIndex))
                      (toNumber (index sorted (medianIndex + 1)%Z)))
             two
  | _ =>
      let useMin :=
        (bool_decide (aggregationMethod = Optimistic)
           && startsWith (type_name assertionType) "max")
        || (bool_decide (aggregationMethod = Pessimistic)
              && startsWith (type_name assertionType) "min") in
      if useMin then Math_min values else Math_max values
  end.


(** ** The generic assertion evaluator *)

Definition getAssertionResult (auditResults : list AuditResult)
  (aggregationMethod : AggregationMethod) (assertionType : AssertionType)
  (expectedValue : num) : list AssertionResult :=
  let values := map (AUDIT_TYPE_VALUE_GETTERS assertionType) auditResults in
  let filteredValues := filterFinite values in
  if (bool_decide (length filteredValues = 0%nat)
        && negb (bool_decide (aggregationMethod = Pessimistic)))
     || (negb (bool_decide (length filteredValues = length values))
           && bool_decide (aggregationMethod = Pessimistic))
  then
    let didRun := map (λ value, if isFiniteNumber value then one else zero)
                      values in
    [mkResult AuditRan one zero didRun "=="]
  else
    let '(operator, passesFn) := AUDIT_TYPE_OPERATORS assertionType in
    let actualValue :=
      getValueForAggregationMethod filteredValues aggregationMethod
                                   assertionType in
    if passesFn actualValue expectedValue then []
    else [mkResult assertionType expectedValue actualValue filteredValues
                   operator].

(** ** Per-audit assertion assembly *)

Definition getAssertionResults
  (possibleAuditResults : list (option AuditResult))
  (options : AssertionOptions) : list AssertionResult :=
  let aggregationMethod := default Optimistic (aggregationMethod options) in
  if existsb isUndefined possibleAuditResults
  then
    [mkResult AuditRan one zero
       (map (λ result : option AuditResult,
               if isUndefined result then zero else one)
            possibleAuditResults)
       ">="]
  else
    let auditResults := omap id possibleAuditResults in
    let results := [] in
    let hadManualAssertion := false in
    let '(hadManualAssertion, results) :=
      match maxLength options with
      | Some maxLength =>
          (true,
           (results ++ getAssertionResult auditResults aggregationMethod
                                          MaxLength maxLength)%list)
      | None => (hadManualAssertion, results)
      end in
    let '(hadManualAssertion, results) :=
      match maxNumericValue options with
      | Some maxNumericValue =>
          (true,
           (results ++ getAssertionResult auditResults aggregationMethod
                                          MaxNumericValue maxNumericValue)%list)
      | None => (hadManualAssertion, results)
      end in
    let realMinScore :=
      if isUndefined (minScore options) && negb hadManualAssertion
      then Some one else minScore options in
    match realMinScore with
    | Some realMinScore =>
        (results ++ getAssertionResult auditResults aggregationMethod
                                       MinScore realMinScore)%list
    | None => results
    end.

(** ** Budget deriver *)

(** Truthiness of a number or undefined, and of a string or undefined. *)
Definition truthyNum (x : option num) : bool :=
  match x with
  | Some (Fin q) => negb (bool_decide (q = 0))
  | Some PInf | Some NInf => true
  | Some NaN | None => false
  end.

Definition truthyStr (x : option string) : bool :=
  match x with
  | Some (String _ _) => true
  | _ => false
  end.

Definition isDigit (c : ascii) : bool :=
  bool_decide (48 ≤ nat_of_ascii c ≤ 57)%nat.

Fixpoint takeDigits (s : string) : string :=
  match s with
  | String c s' => if isDigit c then String c (takeDigits s') else ""
  | EmptyString => ""
  end.

(** [s.match(/\d+/)]: the first run of digits, or no match. *)
Fixpoint matchDigits (s : string) : option string :=
  match s with
  | String c s' =>
      if isDigit c then Some (String c (takeDigits s')) else matchDigits s'
  | EmptyString => None
  end.

Fixpoint decimalValue (acc : Z) (digits : string) : Z :=
  match digits with
  | String c s' =>
      decimalValue (10 * acc + (Z.of_nat (nat_of_ascii c) - 48))%Z s'
  | EmptyString => acc
  end.

(** [Number(digits)] for a string of decimal digits. *)
Definition Number (digits : string) : num := num_of_Z (decimalValue 0 digits).

(** [x || 0] *)
Definition orZero (x : num) : num := if truthyNum (Some x) then x else zero.

Definition getAssertionResultsForBudgetRow (key : string) (actual : option num)
  (expected : num) : list AssertionResult :=
  map (withAuditProperty key)
    (getAssertionResult
       [{| score := Some zero; scoreDisplayMode := None;
           numericValue := actual; details := None; title := None;
           description := None |}]
       Pessimistic MaxNumericValue expected).

(** The body of the loop over the rows of one budget table, on the pair of
    [results] and [resultsKeys]. *)
Definition budgetRowStep (st : list AssertionResult * gset string)
  (budgetRow : Item) : list AssertionResult * gset string :=
  let '(results, resultsKeys) := st in
  let sizeKey := resourceType budgetRow ++ ".size" in
  let countKey := resourceType budgetRow ++ ".count" in
  let '(results, resultsKeys) :=
    if truthyNum (sizeOverBudget budgetRow)
       && negb (bool_decide (sizeKey ∈ resultsKeys))
    then
      let actual := size budgetRow in
      let expected :=
        num_sub (toNumber actual) (toNumber (sizeOverBudget budgetRow)) in
      ((results
          ++ getAssertionResultsForBudgetRow sizeKey actual expected)%list,
       resultsKeys ∪ {[sizeKey]})
    else (results, resultsKeys) in
  if truthyStr (countOverBudget budgetRow)
     && negb (bool_decide (countKey ∈ resultsKeys))
  then
    let actual := requestCount budgetRow in
    match matchDigits (default "" (countOverBudget budgetRow)) with
    | None => (results, resultsKeys)
    | Some overBudgetMatch =>
        let overBudget := orZero (Number overBudgetMatch) in
        let expected := num_sub (toNumber actual) overBudget in
        ((results
            ++ getAssertionResultsForBudgetRow countKey actual expected)%list,
         resultsKeys ∪ {[countKey]})
    end
  else (results, resultsKeys).

Definition getBudgetAssertionResults (auditResults : list AuditResult)
  : list AssertionResult :=
  fst (foldl
         (λ st auditResult,
            match details auditResult ≫= items with
            | None => st
            | Some rows => foldl budgetRowStep st rows
            end)
         ([], ∅) auditResults).

(** ** Exceptions *)

Inductive exn : Type :=
  | JsError (message : string)
  | TypeError
  | SyntaxError.

(** The completion of a call: a value, or an exception thrown. *)
Inductive completion (A : Type) : Type :=
  | Normal (a : A)
  | Throw (e : exn).
Arguments Normal {A} a.
Arguments Throw {A} e.

#[global] Instance completion_ret : MRet completion := λ A a, Normal a.
#[global] Instance completion_bind : MBind completion := λ A B f m,
  match m with
  | Normal a => f a
  | Throw e => Throw e
  end.
#[global] Instance completion_fmap : FMap completion := λ A B f m,
  match m with
  | Normal a => Normal (f a)
  | Throw e => Throw e
  end.

(** ** Category and resource-summary derivers *)

Definition dquote : string := String "034" EmptyString.

(** [parts.join('.')] *)
Fixpoint join (parts : list string) : string :=
  match parts with
  | [] => ""
  | [p] => p
  | p :: rest => p ++ "." ++ join rest
  end.

Definition invalidAssertion (auditProperty : list string) : exn :=
  JsError ("Invalid resource-summary assertion " ++ dquote
             ++ join auditProperty ++ dquote).

Definition scoreOnly (s : option num) : AuditResult :=
  {| score := s; scoreDisplayMode := None; numericValue := None;
     details := None; title := None; description := None |}.

Definition getCategoryAssertionResults (auditProperty : list string)
  (assertionOptions : AssertionOptions) (lhrs : list LHR)
  : completion (list AssertionResult) :=
  if negb (bool_decide (length auditProperty = 1%nat))
  then Throw (invalidAssertion auditProperty)
  else
    let categoryId := default "" (auditProperty !! 0%nat) in
    let psuedoAudits :=
      map (λ lhr, category ← categories lhr !! categoryId;
                  Some (scoreOnly (category_score category)))
          lhrs in
    Normal (map (withAuditProperty categoryId)
              (getAssertionResults psuedoAudits assertionOptions)).

(** [{...result, numericValue: v}] *)
Definition withNumericValue (v : option num) (result : AuditResult)
  : AuditResult :=
  {| score := score result; scoreDisplayMode := scoreDisplayMode result;
     numericValue := v; details := details result; title := title result;
     description := description result |}.

Definition getAssertionResultsForAudit (auditId : string)
  (auditProperty : option (list string))
  (auditResults : list (option AuditResult))
  (assertionOptions : AssertionOptions) (lhrs : list LHR)
  : completion (list AssertionResult) :=
  if bool_decide (auditId = "performance-budget") then
    (* reading [details] of an undefined audit result is a TypeError *)
    match mapM id auditResults with
    | Some defined => Normal (getBudgetAssertionResults defined)
    | None => Throw TypeError
    end
  else if bool_decide (auditId = "categories")
          && negb (isUndefined auditProperty) then
    getCategoryAssertionResults (default [] auditProperty) assertionOptions
                                lhrs
  else if bool_decide (auditId = "resource-summary")
          && negb (isUndefined auditProperty) then
    let auditProperty := default [] auditProperty in
    if negb (bool_decide (length auditProperty = 2%nat))
       || negb (bool_decide
                  (default "" (auditProperty !! 1%nat) ∈ ["size"; "count"]))
    then Throw (invalidAssertion auditProperty)
    else
      let psuedoAuditResults :=
        map (λ result : option AuditResult,
               result ← result;
               d ← details result;
               rows ← items d;
               let itemKey :=
                 if bool_decide (auditProperty !! 1%nat = Some "count")
                 then requestCount else size in
               item ← find (λ item : Item,
                              bool_decide
                                (Some (resourceType item)
                                   = auditProperty !! 0%nat))
                           rows;
               Some (withNumericValue (itemKey item) result))
            auditResults in
      Normal (map (withAuditProperty (join auditProperty))
                (getAssertionResults psuedoAuditResults assertionOptions))
  else Normal (getAssertionResults auditResults assertionOptions).

(** ** Configuration *)

Inductive Assertion : Type :=
  | LevelOnly (level : AssertionFailureLevel)
  | LevelAndOptions (level : AssertionFailureLevel)
                    (options : AssertionOptions).

(** An [assertions] object: its keys in the order [Object.keys] lists them,
    each with its value. *)
Definition Assertions : Type := list (string * Assertion).

(** [assertions[key]] *)
Fixpoint getProperty {A : Type} (obj : list (string * A)) (key : string)
  : option A :=
  match obj with
  | [] => None
  | (k, v) :: rest => if bool_decide (k = key) then Some v
                      else getProperty rest key
  end.

Record BaseOptions : Type := {
  assertions : option Assertions;
  preset : option string;
  budgetsFile : option string;
  matchingUrlPattern : option string;
  base_aggregationMethod : option AggregationMethod;
}.

Record Options : Type := {
  base : BaseOptions;
  assertMatrix : option (list BaseOptions);
}.

Definition normalizeAssertion (assertion : option Assertion)
  : AssertionFailureLevel * AssertionOptions :=
  match assertion with
  | None => (LevelOff, noOptions)
  | Some (LevelOnly level) => (level, noOptions)
  | Some (LevelAndOptions level options) => (level, options)
  end.

(** ** Strings *)

Definition isLineTerminator (c : ascii) : bool :=
  bool_decide (nat_of_ascii c = 10%nat)
  || bool_decide (nat_of_ascii c = 13%nat).

Fixpoint noLineTerminator (s : string) : bool :=
  match s with
  | String c s' => negb (isLineTerminator c) && noLineTerminator s'
  | EmptyString => true
  end.

(** What is left of [s] after [prefix], when [s] starts with it. *)
Fixpoint stripPrefix (prefix s : string) : option string :=
  match prefix, s with
  | EmptyString, _ => Some s
  | String a prefix', String b s' =>
      if bool_decide (a = b) then stripPrefix prefix' s' else None
  | String _ _, EmptyString => None
  end.

(** The capture of the match of [preset] against the pattern
    [lighthouse:] followed by a group of any characters up to the end of
    the input: what follows the first [lighthouse:] after which no line
    ends (the line terminators of the model are LF and CR). *)
Fixpoint presetMatch (preset : string) : option string :=
  match stripPrefix "lighthouse:" preset with
  | Some rest =>
      if noLineTerminator rest then Some rest
      else match preset with
           | String _ s' => presetMatch s'
           | EmptyString => None
           end
  | None =>
      match preset with
      | String _ s' => presetMatch s'
      | EmptyString => None
      end
  end.

(** [s.includes(sub)] *)
Fixpoint includes (s sub : string) : bool :=
  if String.prefix sub s then true
  else match s with
       | String _ s' => includes s' sub
       | EmptyString => false
       end.

(** [s.split('.')] *)
Fixpoint split (s : string) : list string :=
  match s with
  | EmptyString => [""]
  | String c s' =>
      if bool_decide (c = "."%char) then "" :: split s'
      else match split s' with
           | part :: parts => String c part :: parts
           | [] => [String c ""]
           end
  end.

(** [[...new Set(keys)]]: the first occurrence of each key, in order. *)
Fixpoint uniq (keys : list string) : list string :=
  match keys with
  | [] => []
  | k :: rest => k :: filter (λ k', k' ≠ k) (uniq rest)
  end.

(** ** Resolver and orchestrator *)

(** A segment of [splitMarkdownLink]. *)
Record Segment : Type := {
  isLink : bool;
  text : string;
  linkHref : string;
}.

Record AuditToAssert : Type := {
  a_assertionKey : string;
  a_auditId : string;
  a_auditTitle : option string;
  a_auditDocumentationLink : option string;
  a_auditProperty : option (list string);
}.

(** What [resolveAssertionOptionsAndLhrs] returns. *)
Record Resolved : Type := {
  r_assertions : Assertions;
  r_auditsToAssert : list AuditToAssert;
  r_medianLhrs : list LHR;
  r_aggregationMethod : option AggregationMethod;
  r_lhrs : list LHR;
  r_url : string;
}.

(** [{...result, auditId, level, url}], then the title and the link when
    they are set. *)
Definition finalResult (auditToAssert : AuditToAssert)
  (level : AssertionFailureLevel) (url : string) (result : AssertionResult)
  : AssertionResult :=
  {| name := name result; operator := operator result;
     expected := expected result; actual := actual result;
     values := values result; auditProperty := auditProperty result;
     auditId := Some (a_auditId auditToAssert);
     level := Some level; url := Some url;
     auditTitle :=
       if truthyStr (a_auditTitle auditToAssert)
       then a_auditTitle auditToAssert else auditTitle result;
     auditDocumentationLink :=
       if truthyStr (a_auditDocumentationLink auditToAssert)
       then a_auditDocumentationLink auditToAssert
       else auditDocumentationLink result |}.

Section Collaborators.

(** The collaborators that live in other files of the package:
    [_.kebabCase], [_.merge] (on a deep clone of its first argument),
    [_.groupBy], the preset modules behind [require],
    [computeRepresentativeRuns] and [splitMarkdownLink]; and the regular
    expression engine, [new RegExp(pattern).test(url)], which throws on a
    pattern it cannot compile. *)
Variable kebabCase : string → string.
Variable merge : BaseOptions → BaseOptions → BaseOptions.
Variable groupBy : list LHR → (LHR → string) → list (list LHR).
Variable requirePreset : string → completion BaseOptions.
Variable computeRepresentativeRuns : list (list (LHR * LHR)) → list LHR.
Variable splitMarkdownLink : string → list Segment.
Variable regExpTest : string → string → completion bool.

Definition doesLHRMatchPattern (pattern : string) (lhr : LHR)
  : completion bool :=
  regExpTest pattern (finalUrl lhr).

(** [lhrs.filter(f)] for a test that may throw. *)
Fixpoint filterC (f : LHR → completion bool) (lhrs : list LHR)
  : completion (list LHR) :=
  match lhrs with
  | [] => Normal []
  | lhr :: rest =>
      keep ← f lhr;
      kept ← filterC f rest;
      Normal (if keep : bool then lhr :: kept else kept)
  end.

(** The function mapped over the keys in [resolveAssertionOptionsAndLhrs]. *)
Definition auditToAssertOf (lhrs : list LHR) (assertionKey : string)
  : AuditToAssert :=
  let parts := split assertionKey in
  let auditId := default "" (head parts) in
  let rest := tail parts in
  let auditInstances := omap (λ lhr, audits lhr !! auditId) lhrs in
  let failedAudit :=
    find (λ audit, negb (bool_decide (score audit = Some one)))
         auditInstances in
  let audit :=
    match failedAudit with
    | Some audit => Some audit
    | None => head auditInstances
    end in
  let auditTitle := audit ≫= title in
  let auditDocumentationLinkMatches :=
    filter (λ link, includes link "web.dev"
                    || includes link "developers.google.com/web")
      (map (λ segment, if isLink segment then linkHref segment else "")
           (splitMarkdownLink
              (match audit ≫= description with
               | Some (String c d) => String c d
               | _ => ""
               end))) in
  let auditDocumentationLink := head auditDocumentationLinkMatches in
  {| a_assertionKey := assertionKey; a_auditId := auditId;
     a_auditTitle := auditTitle;
     a_auditDocumentationLink := auditDocumentationLink;
     a_auditProperty :=
       if bool_decide (length rest = 0%nat) then None else Some rest |}.

Definition resolveAssertionOptionsAndLhrs (baseOptions : BaseOptions)
  (unfilteredLhrs : list LHR) : completion Resolved :=
  let preset_ := default "" (preset baseOptions) in
  let optionOverrides :=
    {| assertions := assertions baseOptions; preset := None;
       budgetsFile := budgetsFile baseOptions;
       matchingUrlPattern := matchingUrlPattern baseOptions;
       base_aggregationMethod := base_aggregationMethod baseOptions |} in
  optionsToUse ←
    match presetMatch preset_ with
    | Some presetName =>
        presetData ← requirePreset presetName;
        Normal (merge presetData optionOverrides)
    | None => Normal optionOverrides
    end;
  let assertions_ := default [] (assertions optionsToUse) in
  let urlPattern := matchingUrlPattern optionsToUse in
  let aggregationMethod := base_aggregationMethod optionsToUse in
  lhrs ←
    (if truthyStr urlPattern
     then filterC (doesLHRMatchPattern (default "" urlPattern))
                  unfilteredLhrs
     else Normal unfilteredLhrs);
  let uniqueURLs := uniq (map finalUrl lhrs) in
  if bool_decide (1 < length uniqueURLs)%nat
  then Throw (JsError "Can only assert one URL at a time!")
  else
    let medianLhrs :=
      computeRepresentativeRuns [map (λ lhr, (lhr, lhr)) lhrs] in
    let auditsToAssert :=
      map (auditToAssertOf lhrs)
          (uniq (map kebabCase (map fst assertions_))) in
    Normal
      {| r_assertions := assertions_;
         r_auditsToAssert := auditsToAssert;
         r_medianLhrs := medianLhrs;
         r_aggregationMethod := aggregationMethod;
         r_lhrs := lhrs;
         r_url := match lhrs with
                  | lhr :: _ => finalUrl lhr
                  | [] => ""
                  end |}.

(** The body of the loop over [auditsToAssert] in
    [getAllFilteredAssertionResults]: the results it pushes. *)
Definition assertAudit (resolved : Resolved) (auditToAssert : AuditToAssert)
  : completion (list AssertionResult) :=
  let assertionKey := a_assertionKey auditToAssert in
  let auditId := a_auditId auditToAssert in
  let auditProperty := a_auditProperty auditToAssert in
  let '(level, assertionOptions) :=
    normalizeAssertion (getProperty (r_assertions resolved) assertionKey) in
  if bool_decide (level = LevelOff) then Normal []
  else
    let options :=
      {| minScore := minScore assertionOptions;
         maxLength := maxLength assertionOptions;
         maxNumericValue := maxNumericValue assertionOptions;
         aggregationMethod :=
           match aggregationMethod assertionOptions with
           | Some m => Some m
           | None => r_aggregationMethod resolved
           end |} in
    let lhrsToUseForAudit :=
      if bool_decide (aggregationMethod options = Some MedianRun)
      then r_medianLhrs resolved else r_lhrs resolved in
    let auditResults :=
      map (λ lhr, audits lhr !! auditId) lhrsToUseForAudit in
    assertionResults ←
      getAssertionResultsForAudit auditId auditProperty auditResults
                                  options (r_lhrs resolved);
    Normal (map (finalResult auditToAssert level (r_url resolved))
                assertionResults).

Definition getAllFilteredAssertionResults (baseOptions : BaseOptions)
  (unfilteredLhrs : list LHR) : completion (list AssertionResult) :=
  resolved ← resolveAssertionOptionsAndLhrs baseOptions unfilteredLhrs;
  if bool_decide (length (r_lhrs resolved) = 0%nat) then Normal []
  else
    @List.concat AssertionResult <$>
      mapM (assertAudit resolved) (r_auditsToAssert resolved).

Definition getAllAssertionResults (options : Options) (lhrs : list LHR)
  : completion (list AssertionResult) :=
  let groupedByURL := groupBy lhrs finalUrl in
  arrayOfOptions ←
    match assertMatrix options with
    | Some matrix =>
        if negb (isUndefined (assertions (base options)))
           || truthyStr (preset (base options))
           || truthyStr (budgetsFile (base options))
           || negb (isUndefined (base_aggregationMethod (base options)))
        then Throw (JsError "Cannot use assertMatrix with other options")
        else Normal matrix
    | None => Normal [base options]
    end;
  @List.concat AssertionResult <$>
    mapM (λ lhrSet,
            @List.concat AssertionResult <$>
              mapM (λ baseOptions,
                      getAllFilteredAssertionResults baseOptions lhrSet)
                   arrayOfOptions)
         groupedByURL.

End Collaborators.

(** ** Stand-ins for the collaborators

    The theorems below hold for every choice of the collaborators.  The
    definitions of this part give one choice, on which the functions can be
    run. *)

Definition isUpper (c : ascii) : bool :=
  bool_decide (65 ≤ nat_of_ascii c ≤ 90)%nat.
Definition isLower (c : ascii) : bool :=
  bool_decide (97 ≤ nat_of_ascii c ≤ 122)%nat.
Definition toLower (c : ascii) : ascii :=
  if isUpper c then ascii_of_nat (nat_of_ascii c + 32) else c.

Fixpoint kebabFrom (previous : option ascii) (s : string) : string :=
  match s with
  | EmptyString => ""
  | String c s' =>
      let tl := String (toLower c) (kebabFrom (Some c) s') in
      match previous with
      | Some p => if isLower p && isUpper c then String "-" tl else tl
      | None => tl
      end
  end.

(** Modelled from the spec: [_.kebabCase] of lodash.js, which is not among
    the sources; "stable case-folding to a canonical dashed form": a dash
    goes between a lower-case letter and the upper-case letter after it,
    and the letters are made lower-case. *)
Definition kebabCase_model (s : string) : string := kebabFrom None s.

Definition orElse {A : Type} (x y : option A) : option A :=
  match x with
  | Some _ => x
  | None => y
  end.

(** Modelled from the spec: [_.merge] of lodash.js, which is not among the
    sources; "overrides win, arrays/objects merged structurally": a key of
    the overrides replaces the value the base has for it, or is added after
    the keys of the base. *)
Definition mergeAssertions (base overrides : Assertions) : Assertions :=
  (map (λ kv : string * Assertion,
          (kv.1, default kv.2 (getProperty overrides kv.1))) base
   ++ filter (λ kv : string * Assertion,
                isUndefined (getProperty base kv.1) = true)
             overrides)%list.

Definition merge_model (base overrides : BaseOptions) : BaseOptions :=
  {| assertions :=
       match assertions base, assertions overrides with
       | Some b, Some o => Some (mergeAssertions b o)
       | b, o => orElse o b
       end;
     preset := orElse (preset overrides) (preset base);
     budgetsFile := orElse (budgetsFile overrides) (budgetsFile base);
     matchingUrlPattern :=
       orElse (matchingUrlPattern overrides) (matchingUrlPattern base);
     base_aggregationMethod :=
       orElse (base_aggregationMethod overrides)
              (base_aggregationMethod base) |}.

(** Modelled from the spec: [_.groupBy] of lodash.js, which is not among
    the sources; "grouping preserves first-seen order of group keys". *)
Definition groupBy_model (lhrs : list LHR) (keyFn : LHR → string)
  : list (list LHR) :=
  map (λ key, filter (λ lhr, keyFn lhr = key) lhrs) (uniq (map keyFn lhrs)).

(** Modelled from the spec: the preset registry, whose modules are not
    among the sources; "lookup(name) → ConfigurationObject, fails if
    unknown".  This registry knows no name. *)
Definition requirePreset_model (presetName : string) : completion BaseOptions :=
  Throw (JsError ("Cannot find module ./presets/" ++ presetName ++ ".js")).

(** Modelled from the spec: [computeRepresentativeRuns] of
    representative-runs.js, which is not among the sources; "one report per
    URL group": here the first report of each set of attempts. *)
Definition computeRepresentativeRuns_model (runs : list (list (LHR * LHR)))
  : list LHR :=
  omap (λ attempts : list (LHR * LHR), fst <$> head attempts) runs.

(** Modelled from the spec: [splitMarkdownLink] of markdown.js, which is not
    among the sources; "split(text) → orderedSequenceOf({isLink, text,
    linkHref?})".  This one finds no link: the text is one segment. *)
Definition splitMarkdownLink_model (s : string) : list Segment :=
  [{| isLink := false; text := s; linkHref := "" |}].

(** A regular expression engine for the patterns that are plain text: the
    test is whether the text occurs in the URL. *)
Definition regExpTest_model (pattern url : string) : completion bool :=
  Normal (includes url pattern).

Definition getAllFilteredAssertionResults_model :=
  getAllFilteredAssertionResults kebabCase_model merge_model
    requirePreset_model computeRepresentativeRuns_model
    splitMarkdownLink_model regExpTest_model.

Definition getAllAssertionResults_model :=
  getAllAssertionResults kebabCase_model merge_model groupBy_model
    requirePreset_model computeRepresentativeRuns_model
    splitMarkdownLink_model regExpTest_model.

(** ** Sample data *)

Definition emptyAudit : AuditResult :=
  {| score := None; scoreDisplayMode := None; numericValue := None;
     details := None; title := None; description := None |}.

Definition auditWithNumericValue (v : Z) : AuditResult :=
  withNumericValue (Some (num_of_Z v)) emptyAudit.


(** ** Vocabulary of the properties *)

Local Close Scope Qc_scope.
Local Close Scope Q_scope.
Local Close Scope string_scope.

Definition notFinite (v : option num) : Prop := isFiniteNumber v = false.

#[global] Instance notFinite_dec v : Decision (notFinite v).
Proof. unfold notFinite. apply _. Defined.

Definition isFin (v : num) : Prop := ∃ q, v = Fin q.

(** The sequence that marks each report 1 (measured) or 0 (not measured). *)
Definition didRunOf (raw : list (option num)) : list num :=
  map (λ v, if isFiniteNumber v then one else zero) raw.

(** The failure-to-measure rule, as the specification words it. *)
Definition failureToMeasure (raw : list (option num)) (m : AggregationMethod)
  : Prop :=
  (Forall notFinite raw ∧ m ≠ Pessimistic)
  ∨ (Exists notFinite raw ∧ m = Pessimistic).

(** The order [<=] of the numbers, as a proposition. *)
Definition num_le (a b : num) : Prop := num_leb a b = true.

Definition sampleValues : list num := map num_of_Z [3; 1; 2; 5]%Z.

(** Linear arithmetic with division and remainder by a constant. *)
Ltac div_lia := zify; Z.to_euclidean_division_equations; lia.

(** [min(values)] and [max(values)]: a member of the sequence that no
    member is below, respectively above. *)
Definition isMinOf (x : num) (vs : list num) : Prop :=
  x ∈ vs ∧ ∀ v, v ∈ vs → num_le x v.

Definition isMaxOf (x : num) (vs : list num) : Prop :=
  x ∈ vs ∧ ∀ v, v ∈ vs → num_le v x.

(** The results of the manual assertions of an options object: [maxLength]
    when it is set, then [maxNumericValue] when it is set. *)
Definition manualAssertionResults (rs : list AuditResult)
  (options : AssertionOptions) : list AssertionResult :=
  let m := default Optimistic (aggregationMethod options) in
  match maxLength options with
  | Some v => getAssertionResult rs m MaxLength v
  | None => []
  end
  ++ match maxNumericValue options with
     | Some v => getAssertionResult rs m MaxNumericValue v
     | None => []
     end.

Definition sampleOptions (maxNumeric : Z) : AssertionOptions :=
  {| minScore := None; maxLength := None;
     maxNumericValue := Some (num_of_Z maxNumeric);
     aggregationMethod := None |}.

(** The rows of a batch of budget audit results, in the order the loops of
    [getBudgetAssertionResults] visit them. *)
Definition budgetRows (auditResults : list AuditResult) : list Item :=
  flat_map (λ auditResult, default [] (details auditResult ≫= items))
           auditResults.

Definition sizeKey (row : Item) : string :=
  (resourceType row ++ ".size")%string.
Definition countKey (row : Item) : string :=
  (resourceType row ++ ".count")%string.

(** A row is over its size budget, respectively over its count budget with
    a count that can be read. *)
Definition overSize (row : Item) : Prop :=
  truthyNum (sizeOverBudget row) = true.

Definition overCount (row : Item) : Prop :=
  truthyStr (countOverBudget row) = true
  ∧ is_Some (matchDigits (default ""%string (countOverBudget row))).

(** The amounts over budget of a row. *)
Definition sizeOver (row : Item) : num := toNumber (sizeOverBudget row).

Definition countOver (row : Item) : num :=
  orZero (Number (default ""%string
                    (matchDigits (default ""%string (countOverBudget row))))).


(** The assertions a budget row asks for: key, observed value and expected
    value, for its size and then for its count. *)
Definition rowEvents (row : Item) : list (string * option num * num) :=
  (if truthyNum (sizeOverBudget row)
   then [(sizeKey row, size row, num_sub (toNumber (size row)) (sizeOver row))]
   else [])
  ++ (if truthyStr (countOverBudget row)
      then match matchDigits (default ""%string (countOverBudget row)) with
           | Some _ =>
               [(countKey row, requestCount row,
                 num_sub (toNumber (requestCount row)) (countOver row))]
           | None => []
           end
      else []).

Definition eventKey (ev : string * option num * num) : string := fst (fst ev).

Definition eventStep (st : list AssertionResult * gset string)
  (ev : string * option num * num) : list AssertionResult * gset string :=
  if bool_decide (eventKey ev ∈ snd st) then st
  else (fst st ++ getAssertionResultsForBudgetRow (eventKey ev) (snd (fst ev))
                                                  (snd ev),
        snd st ∪ {[eventKey ev]}).

Definition budgetRow (rt : string) (sz over : option Z) : Item :=
  {| resourceType := rt; size := num_of_Z <$> sz;
     sizeOverBudget := num_of_Z <$> over; requestCount := None;
     countOverBudget := None |}.

Definition budgetAudit (rows : list Item) : AuditResult :=
  {| score := Some zero; scoreDisplayMode := None; numericValue := None;
     details := Some {| items := Some rows |}; title := None;
     description := None |}.

(** Two reports whose budget tables both have the script row over its size
    budget. *)
Definition sampleBudgetBatch : list AuditResult :=
  [budgetAudit [budgetRow "script" (Some 500000%Z) (Some 100000%Z)];
   budgetAudit [budgetRow "script" (Some 600000%Z) (Some 200000%Z)]].

(** A report with one audit, and options that assert it. *)
Definition sampleLhr : LHR :=
  {| finalUrl := "https://example.com/"; categories := ∅;
     audits := {[ "first-contentful-paint"%string
                    := auditWithNumericValue 2000 ]} |}.

Definition baseOptionsOf (a : Assertions) : BaseOptions :=
  {| assertions := Some a; preset := None; budgetsFile := None;
     matchingUrlPattern := None; base_aggregationMethod := None |}.

Definition sampleAssertions : Assertions :=
  [("first-contentful-paint"%string,
    LevelAndOptions LevelError (sampleOptions 1500))].

(** An assertion matrix next to a URL pattern. *)
Definition matrixWithPattern : Options :=
  {| base := {| assertions := None; preset := None; budgetsFile := None;
                matchingUrlPattern := Some "example"%string;
                base_aggregationMethod := None |};
     assertMatrix := Some [baseOptionsOf sampleAssertions] |}.

(** The same audit under its camel-case and under its kebab-case key. *)
Definition twoSpellings : Assertions :=
  [("first-contentful-paint"%string,
    LevelAndOptions LevelError (sampleOptions 1500));
   ("firstContentfulPaint"%string, LevelOnly LevelOff)].

(** What evaluating each entry of a matrix against each URL group gives:
    the results of the evaluations one after the other, or the first
    exception. *)
Definition evaluateEach
  (evaluate : BaseOptions → list LHR → completion (list AssertionResult))
  (matrix : list BaseOptions) (groups : list (list LHR))
  : completion (list AssertionResult) :=
  @List.concat AssertionResult <$>
    mapM (λ group,
            @List.concat AssertionResult <$>
              mapM (λ entry, evaluate entry group) matrix)
         groups.



(** * Properties *)

(** ** Finite values *)

Lemma filterFinite_cons v raw :
  filterFinite (v :: raw) =
    if isFiniteNumber v then toNumber v :: filterFinite raw
    else filterFinite raw.
Proof. by destruct v as [[]|]. Qed.

Lemma filterFinite_length_le raw : length (filterFinite raw) ≤ length raw.
Proof.
  induction raw as [|v raw IH]; [done|].
  rewrite filterFinite_cons. destruct (isFiniteNumber v); simpl; lia.
Qed.

Lemma filterFinite_isFin raw : Forall isFin (filterFinite raw).
Proof.
  induction raw as [|v raw IH]; [constructor|].
  rewrite filterFinite_cons. destruct v as [[q| | |]|]; simpl; try done.
  constructor; [by exists q|done].
Qed.

Lemma filterFinite_nil raw :
  length (filterFinite raw) = 0 ↔ Forall notFinite raw.
Proof.
  induction raw as [|v raw IH]; [by split; [constructor|]|].
  rewrite filterFinite_cons, Forall_cons. unfold notFinite at 1.
  destruct (isFiniteNumber v); simpl; [|tauto].
  split; [lia|]. by intros [? _].
Qed.

Lemma filterFinite_all raw :
  length (filterFinite raw) = length raw ↔ ¬ Exists notFinite raw.
Proof.
  induction raw as [|v raw IH]; [split; [by inversion 2|done]|].
  rewrite filterFinite_cons, Exists_cons. unfold notFinite at 1.
  pose proof (filterFinite_length_le raw).
  destruct (isFiniteNumber v); simpl.
  - split.
    + intros Hl [?|?]; [done|]. apply IH; [lia|done].
    + intros Hn. f_equal. apply IH. tauto.
  - split; [lia|]. intros []. by left.
Qed.

Lemma filterFinite_filter_length raw :
  length (filterFinite raw)
    = length (filter (λ v, isFiniteNumber v = true) raw).
Proof.
  induction raw as [|v raw IH]; [done|].
  rewrite filterFinite_cons, filter_cons.
  destruct (isFiniteNumber v) eqn:E.
  - rewrite decide_True by done. simpl. by rewrite IH.
  - by rewrite decide_False by done.
Qed.

(** The test of [getAssertionResult] is the failure-to-measure rule. *)
Lemma failureToMeasure_test raw m :
  (bool_decide (length (filterFinite raw) = 0)
     && negb (bool_decide (m = Pessimistic)))
  || (negb (bool_decide (length (filterFinite raw) = length raw))
        && bool_decide (m = Pessimistic)) = true
  ↔ failureToMeasure raw m.
Proof.
  unfold failureToMeasure.
  rewrite orb_true_iff, !andb_true_iff, !negb_true_iff,
    !bool_decide_eq_true, !bool_decide_eq_false.
  rewrite filterFinite_nil, filterFinite_all.
  split; (intros [[??]|[??]]; [left|right]; split; try done).
  - by destruct (decide (Exists notFinite raw)).
  - tauto.
Qed.

(** What [getAssertionResult] returns on each side of its test. *)
Lemma getAssertionResult_not_measured rs m t e :
  failureToMeasure (map (AUDIT_TYPE_VALUE_GETTERS t) rs) m →
  getAssertionResult rs m t e =
    [mkResult AuditRan one zero
       (didRunOf (map (AUDIT_TYPE_VALUE_GETTERS t) rs)) "=="%string].
Proof.
  intros H%failureToMeasure_test. unfold getAssertionResult.
  by rewrite H.
Qed.

Lemma getAssertionResult_measured rs m t e :
  ¬ failureToMeasure (map (AUDIT_TYPE_VALUE_GETTERS t) rs) m →
  let filtered := filterFinite (map (AUDIT_TYPE_VALUE_GETTERS t) rs) in
  let agg := getValueForAggregationMethod filtered m t in
  getAssertionResult rs m t e =
    if passesFn t agg e then []
    else [mkResult t e agg filtered (operator_of t)].
Proof.
  intros H. rewrite <- failureToMeasure_test in H.
  apply not_true_is_false in H. unfold getAssertionResult.
  by rewrite H.
Qed.

(** ** Operators *)

Lemma getAssertionResult_operator rs m t e r :
  r ∈ getAssertionResult rs m t e → operator r = operator_of (name r).
Proof.
  destruct (decide (failureToMeasure (map (AUDIT_TYPE_VALUE_GETTERS t) rs) m))
    as [H|H].
  - rewrite (getAssertionResult_not_measured _ _ _ _ H).
    by intros ->%list_elem_of_singleton.
  - rewrite (getAssertionResult_measured _ _ _ _ H). simpl.
    destruct (passesFn _ _ _); [by intros ?%elem_of_nil|].
    by intros ->%list_elem_of_singleton.
Qed.

Lemma getAssertionResults_undefined rs options :
  None ∈ rs →
  getAssertionResults rs options =
    [mkResult AuditRan one zero
       (map (λ result : option AuditResult,
               if isUndefined result then zero else one) rs)
       ">="%string].
Proof.
  intros H. unfold getAssertionResults.
  replace (existsb isUndefined rs) with true; [done|].
  symmetry. apply existsb_exists. exists None.
  by rewrite <- list_elem_of_In.
Qed.

(** C1: not every result carries the operator of its name.  When a report
    lacks the audit, [getAssertionResults] returns an [auditRan] violation
    whose operator is [>=], while the operator table, like the [auditRan]
    violation of [getAssertionResult], has [==] for that name. *)
Theorem getAssertionResults_auditRan_operator :
  getAssertionResults [None] noOptions
    = [mkResult AuditRan one zero [zero] ">="%string]
  ∧ fst (AUDIT_TYPE_OPERATORS AuditRan) = "=="%string
  ∧ ∃ r, r ∈ getAssertionResults [None] noOptions
         ∧ operator r ≠ fst (AUDIT_TYPE_OPERATORS (name r)).
Proof.
  split; [reflexivity|]. split; [reflexivity|].
  eexists. split; [apply list_elem_of_here|]. by simpl.
Qed.

(** ** The values of a result *)

Lemma didRunOf_length raw : length (didRunOf raw) = length raw.
Proof. apply length_map. Qed.

(** C2, as stated, fails: with two reports of which one has no numeric
    value, the optimistic [maxNumericValue] violation lists one value. *)
Lemma values_one_per_report_counterexample :
  ¬ (∀ rs m t e r,
       r ∈ getAssertionResult rs m t e → length (values r) = length rs).
Proof.
  intros H.
  specialize (H [auditWithNumericValue 2000; emptyAudit] Optimistic
                MaxNumericValue (num_of_Z 1500) _ (list_elem_of_here _ _)).
  vm_compute in H. discriminate H.
Qed.

(** C2, amended: the [auditRan] violation of the failure-to-measure rule
    has one value per report; a kind-specific violation has the finite raw
    values only, one per report whose raw value is finite.  So a result has
    one value per report whenever the method is pessimistic or every raw
    value is finite. *)
Theorem values_one_per_measured_report rs m t e r :
  r ∈ getAssertionResult rs m t e →
  let raw := map (AUDIT_TYPE_VALUE_GETTERS t) rs in
  (failureToMeasure raw m →
     values r = didRunOf raw ∧ length (values r) = length rs)
  ∧ (¬ failureToMeasure raw m →
       values r = filterFinite raw
       ∧ length (values r)
           = length (filter (λ v, isFiniteNumber v = true) raw))
  ∧ (m = Pessimistic ∨ Forall (λ v, isFiniteNumber v = true) raw →
       length (values r) = length rs).
Proof.
  intros Hr raw.
  assert (Hnot : ¬ failureToMeasure raw m →
                 values r = filterFinite raw).
  { intros H. rewrite (getAssertionResult_measured _ _ _ _ H) in Hr.
    simpl in Hr. destruct (passesFn _ _ _); [by apply elem_of_nil in Hr|].
    by apply list_elem_of_singleton in Hr as ->. }
  assert (Hrun : failureToMeasure raw m →
                 values r = didRunOf raw ∧ length (values r) = length rs).
  { intros H. rewrite (getAssertionResult_not_measured _ _ _ _ H) in Hr.
    apply list_elem_of_singleton in Hr as ->. simpl.
    split; [done|]. unfold raw. by rewrite didRunOf_length, length_map. }
  split; [done|]. split.
  - intros H. split; [by apply Hnot|].
    rewrite (Hnot H). apply filterFinite_filter_length.
  - intros Hm. destruct (decide (failureToMeasure raw m)) as [H|H].
    + by apply Hrun.
    + rewrite (Hnot H).
      replace (length rs) with (length raw) by apply length_map.
      apply filterFinite_all. intros Hex.
      destruct Hm as [->|Hall].
      * apply H. by right.
      * apply Exists_exists in Hex as (v & Hv & Hnf).
        rewrite Forall_forall in Hall. specialize (Hall v Hv).
        unfold notFinite in Hnf. congruence.
Qed.

Lemma values_one_per_measured_report_witness :
  ∃ r, r ∈ getAssertionResult [auditWithNumericValue 2000; emptyAudit]
             Optimistic MaxNumericValue (num_of_Z 1500)
       ∧ values r = [num_of_Z 2000].
Proof.
  eexists. split; [apply list_elem_of_here|].
  pose proof (values_one_per_measured_report
                [auditWithNumericValue 2000; emptyAudit] Optimistic
                MaxNumericValue (num_of_Z 1500) _ (list_elem_of_here _ _))
    as (_ & H & _).
  apply H. unfold failureToMeasure.
  intros [[Hall _]|[_ Hm]]; [|discriminate Hm].
  apply Forall_cons in Hall as [Hnf _]. discriminate Hnf.
Defined.

(** ** The failure-to-measure rule *)


Lemma index_replicate {A : Type} (x : A) n i :
  (0 ≤ i < Z.of_nat n)%Z → index (replicate n x) i = Some x.
Proof.
  intros Hi. unfold index. rewrite bool_decide_eq_false_2 by lia.
  apply lookup_replicate_2. lia.
Qed.

Lemma sort_replicate compare x n :
  num_pos (compare x x) = false →
  sort compare (replicate n x) = replicate n x.
Proof.
  intros Hx. unfold sort. induction n as [|n IH]; [done|].
  simpl. rewrite IH. destruct n as [|n]; [done|]. simpl. by rewrite Hx.
Qed.

Lemma Math_min_replicate_one n :
  0 < n → Math_min (replicate n one) = one.
Proof.
  unfold Math_min. induction n as [|[|n] IH]; [lia|done|].
  intros _. change (replicate (S (S n)) one) with (one :: replicate (S n) one).
  simpl foldr. simpl in IH. rewrite IH by lia. done.
Qed.

Lemma Math_max_replicate_one n :
  0 < n → Math_max (replicate n one) = one.
Proof.
  unfold Math_max. induction n as [|[|n] IH]; [lia|done|].
  intros _. change (replicate (S (S n)) one) with (one :: replicate (S n) one).
  simpl foldr. simpl in IH. rewrite IH by lia. done.
Qed.

Lemma half_of_two_ones : num_div (num_add one one) two = one.
Proof. apply (bool_decide_unpack _). by vm_compute. Qed.

Lemma aggregate_replicate_one n m t :
  0 < n → getValueForAggregationMethod (replicate n one) m t = one.
Proof.
  intros Hn. unfold getValueForAggregationMethod.
  destruct m;
    try (destruct (_ || _);
         first [by apply Math_min_replicate_one
               |by apply Math_max_replicate_one]).
  change (λ a b : num, num_sub a b) with num_sub.
  rewrite sort_replicate by done. rewrite length_replicate.
  case_bool_decide as Hodd.
  - rewrite index_replicate; [done|]. div_lia.
  - assert (2 ≤ n).
    { pose proof (Nat.mod_upper_bound n 2). pose proof (Nat.div_mod_eq n 2).
      lia. }
    rewrite !index_replicate; [apply half_of_two_ones| |]; div_lia.
Qed.

Lemma filterFinite_auditRan rs :
  filterFinite (map (AUDIT_TYPE_VALUE_GETTERS AuditRan) rs)
    = replicate (length rs) one.
Proof. induction rs as [|r rs IH]; [done|]. simpl. by rewrite <- IH. Qed.

(** C3: [getAssertionResult] returns the one [auditRan] violation with
    expected 1, actual 0, operator [==] and a values sequence marking each
    report 1 when its raw value is finite and 0 otherwise, exactly when the
    failure-to-measure rule applies: no raw value is finite and the method
    is not pessimistic, or some raw value is not finite and the method is
    pessimistic.  Otherwise the result is that of the kind-specific
    comparison, which is never this violation. *)
Theorem failure_to_measure_rule rs m t e :
  let raw := map (AUDIT_TYPE_VALUE_GETTERS t) rs in
  getAssertionResult rs m t e
    = [mkResult AuditRan one zero
         (map (λ v, if isFiniteNumber v then one else zero) raw) "=="%string]
  ↔ (Forall (λ v, isFiniteNumber v = false) raw ∧ m ≠ Pessimistic)
    ∨ (Exists (λ v, isFiniteNumber v = false) raw ∧ m = Pessimistic).
Proof.
  intros raw. split.
  - intros Heq.
    destruct (decide (failureToMeasure raw m)) as [H|H]; [done|].
    exfalso. rewrite (getAssertionResult_measured _ _ _ _ H) in Heq.
    simpl in Heq. destruct (passesFn _ _ _); [done|].
    injection Heq as Ht _ _ Hagg _. subst t.
    unfold raw in Hagg. rewrite filterFinite_auditRan in Hagg.
    destruct rs as [|r rs].
    + assert (m = Pessimistic) as ->.
      { destruct (decide (m = Pessimistic)); [done|].
        exfalso. apply H. left. split; [constructor|done]. }
      discriminate Hagg.
    + rewrite aggregate_replicate_one in Hagg by (simpl; lia).
      discriminate Hagg.
  - intros H. by apply getAssertionResult_not_measured.
Qed.

(** ** Aggregation: the median *)

Lemma num_le_Fin x y : num_le (Fin x) (Fin y) ↔ (x ≤ y)%Qc.
Proof. unfold num_le. simpl. apply bool_decide_eq_true. Qed.

Lemma num_pos_sub_Fin x y :
  num_pos (num_sub (Fin x) (Fin y)) = bool_decide (y < x)%Qc.
Proof.
  simpl. apply bool_decide_ext. symmetry. apply Qclt_minus_iff.
Qed.

Lemma sort_insert_perm compare x l : sort_insert compare x l ≡ₚ x :: l.
Proof.
  induction l as [|y l IH]; [done|]. simpl.
  destruct (num_pos _); [|done]. rewrite IH. apply Permutation_swap.
Qed.

Lemma sort_perm compare l : sort compare l ≡ₚ l.
Proof.
  unfold sort. induction l as [|x l IH]; [done|]. simpl.
  by rewrite sort_insert_perm, IH.
Qed.

Lemma sort_insert_sorted x l :
  isFin x → Forall isFin l → StronglySorted num_le l →
  StronglySorted num_le (sort_insert num_sub x l).
Proof.
  intros [qx ->] Hfin Hsorted.
  induction Hsorted as [|y l Hsorted IH Hy].
  - repeat constructor.
  - apply Forall_cons in Hfin as [[qy ->] Hfin].
    cbn [sort_insert]. rewrite num_pos_sub_Fin. case_bool_decide as Hlt.
    + constructor; [by apply IH|].
      rewrite sort_insert_perm. constructor; [|done].
      apply num_le_Fin. by apply Qclt_le_weak.
    + apply Qcnot_lt_le in Hlt.
      constructor; [by constructor|].
      constructor; [by apply num_le_Fin|].
      rewrite Forall_forall in Hy, Hfin |- *. intros z Hz.
      destruct (Hfin z Hz) as [qz ->]. apply num_le_Fin.
      specialize (Hy _ Hz). apply num_le_Fin in Hy. by etrans.
Qed.

Lemma sort_isFin compare l : Forall isFin l → Forall isFin (sort compare l).
Proof. intros H. by rewrite sort_perm. Qed.

Lemma sort_sorted l :
  Forall isFin l → StronglySorted num_le (sort num_sub l).
Proof.
  induction 1 as [|x l Hx Hl IH]; [constructor|].
  apply sort_insert_sorted; [done| |done]. by apply sort_isFin.
Qed.


Lemma two_is_two : Q2Qc (inject_Z 2) = (1 + 1)%Qc.
Proof. apply Qc_is_canon. reflexivity. Qed.

Lemma num_div_two q : num_div (Fin q) two = Fin (q / (1 + 1))%Qc.
Proof.
  unfold two, num_of_Z. rewrite two_is_two. unfold num_div.
  by rewrite bool_decide_eq_false_2.
Qed.






Lemma sampleValues_isFin : Forall isFin sampleValues.
Proof. repeat constructor; by eexists. Defined.


(** ** Aggregation: optimistic and pessimistic *)

Lemma Math_min_spec vs :
  vs ≠ [] → Forall isFin vs → isMinOf (Math_min vs) vs.
Proof.
  intros Hne Hfin. induction Hfin as [|x l [qx ->] Hl IH]; [done|].
  unfold Math_min. cbn [foldr]. fold (Math_min l).
  destruct l as [|y l].
  { split; [apply list_elem_of_here|].
    intros v ->%list_elem_of_singleton. apply num_le_Fin. done. }
  destruct IH as [Hin Hmin]; [done|].
  rewrite Forall_forall in Hl. destruct (Hl _ Hin) as [qm Hm].
  rewrite Hm in Hin, Hmin |- *. unfold min2. simpl num_leb.
  case_bool_decide as Hle.
  - split; [apply list_elem_of_here|].
    intros v [->|Hv]%elem_of_cons; [by apply num_le_Fin|].
    destruct (Hl _ Hv) as [qv ->]. apply num_le_Fin.
    specialize (Hmin _ Hv). apply num_le_Fin in Hmin. by etrans.
  - split; [by apply list_elem_of_further|].
    intros v [->|Hv]%elem_of_cons; [|by apply Hmin].
    apply num_le_Fin. apply Qclt_le_weak. by apply Qcnot_le_lt.
Qed.

Lemma Math_max_spec vs :
  vs ≠ [] → Forall isFin vs → isMaxOf (Math_max vs) vs.
Proof.
  intros Hne Hfin. induction Hfin as [|x l [qx ->] Hl IH]; [done|].
  unfold Math_max. cbn [foldr]. fold (Math_max l).
  destruct l as [|y l].
  { split; [apply list_elem_of_here|].
    intros v ->%list_elem_of_singleton. apply num_le_Fin. done. }
  destruct IH as [Hin Hmax]; [done|].
  rewrite Forall_forall in Hl. destruct (Hl _ Hin) as [qm Hm].
  rewrite Hm in Hin, Hmax |- *. unfold max2. simpl num_leb.
  case_bool_decide as Hle.
  - split; [by apply list_elem_of_further|].
    intros v [->|Hv]%elem_of_cons; [|by apply Hmax].
    by apply num_le_Fin.
  - apply Qcnot_le_lt, Qclt_le_weak in Hle.
    split; [apply list_elem_of_here|].
    intros v [->|Hv]%elem_of_cons; [by apply num_le_Fin|].
    destruct (Hl _ Hv) as [qv ->]. apply num_le_Fin.
    specialize (Hmax _ Hv). apply num_le_Fin in Hmax. by etrans.
Qed.

(** C5: on a non-empty sequence of finite values, for every assertion kind,
    the optimistic and the pessimistic method return [min(values)] when the
    method is optimistic and the name of the kind starts with [max], or the
    method is pessimistic and the name starts with [min]; and [max(values)]
    in every other case. *)
Theorem optimistic_pessimistic_aggregate (vs : list num)
  (m : AggregationMethod) (t : AssertionType) :
  vs ≠ [] → Forall isFin vs → m = Optimistic ∨ m = Pessimistic →
  let useMin :=
    (m = Optimistic ∧ String.prefix "max" (type_name t) = true)
    ∨ (m = Pessimistic ∧ String.prefix "min" (type_name t) = true) in
  (useMin → isMinOf (getValueForAggregationMethod vs m t) vs)
  ∧ (¬ useMin → isMaxOf (getValueForAggregationMethod vs m t) vs).
Proof.
  intros Hne Hfin Hm useMin.
  pose proof (Math_min_spec vs Hne Hfin) as Hmin.
  pose proof (Math_max_spec vs Hne Hfin) as Hmax.
  unfold useMin.
  destruct Hm as [-> | ->], t; simpl; split; intros H; try done; exfalso;
    first [ destruct H as [[H1 H2]|[H1 H2]];
              (discriminate H1 || discriminate H2)
          | apply H; left; split; reflexivity
          | apply H; right; split; reflexivity ].
Qed.

Lemma optimistic_pessimistic_aggregate_witness :
  isMinOf (getValueForAggregationMethod sampleValues Optimistic MaxLength)
          sampleValues
  ∧ isMaxOf (getValueForAggregationMethod sampleValues Optimistic MinScore)
            sampleValues.
Proof.
  assert (sampleValues ≠ []) as Hne by discriminate.
  split.
  - apply (optimistic_pessimistic_aggregate sampleValues Optimistic MaxLength
             Hne sampleValues_isFin (or_introl eq_refl)).
    left. split; reflexivity.
  - apply (optimistic_pessimistic_aggregate sampleValues Optimistic MinScore
             Hne sampleValues_isFin (or_introl eq_refl)).
    intros [[_ H]|[H _]]; discriminate H.
Defined.

(** ** Per-audit assertion assembly *)

Lemma getAssertionResult_name rs m t e r :
  r ∈ getAssertionResult rs m t e → name r = AuditRan ∨ name r = t.
Proof.
  destruct (decide (failureToMeasure (map (AUDIT_TYPE_VALUE_GETTERS t) rs) m))
    as [H|H].
  - rewrite (getAssertionResult_not_measured _ _ _ _ H).
    intros ->%list_elem_of_singleton. by left.
  - rewrite (getAssertionResult_measured _ _ _ _ H). simpl.
    destruct (passesFn _ _ _); [by intros ?%elem_of_nil|].
    intros ->%list_elem_of_singleton. by right.
Qed.

Lemma existsb_isUndefined_defined (rs : list AuditResult) :
  existsb isUndefined (Some <$> rs) = false.
Proof. induction rs as [|r rs IH]; [done|]. done. Qed.

Lemma omap_id_defined (rs : list AuditResult) : omap id (Some <$> rs) = rs.
Proof. induction rs as [|r rs IH]; [done|]. simpl. f_equal. exact IH. Qed.

(** C6: with every audit result defined, [getAssertionResults] evaluates
    [minScore] against 1 when no [maxLength], [maxNumericValue] or
    [minScore] is configured; it evaluates [minScore] against the explicit
    value, after the manual assertions, when [minScore] is set; and it
    evaluates no [minScore] assertion, only the manual ones, when [minScore]
    is absent and [maxLength] or [maxNumericValue] is configured. *)
Theorem implicit_minScore (rs : list AuditResult) (options : AssertionOptions) :
  let m := default Optimistic (aggregationMethod options) in
  (maxLength options = None → maxNumericValue options = None →
   minScore options = None →
     getAssertionResults (Some <$> rs) options
       = getAssertionResult rs m MinScore one)
  ∧ (∀ s, minScore options = Some s →
       getAssertionResults (Some <$> rs) options
         = manualAssertionResults rs options
             ++ getAssertionResult rs m MinScore s)
  ∧ (minScore options = None →
     maxLength options ≠ None ∨ maxNumericValue options ≠ None →
       getAssertionResults (Some <$> rs) options
         = manualAssertionResults rs options
       ∧ ∀ r, r ∈ getAssertionResults (Some <$> rs) options →
              name r ≠ MinScore).
Proof.
  intros m. unfold getAssertionResults, manualAssertionResults.
  rewrite existsb_isUndefined_defined, omap_id_defined. fold m.
  destruct options as [[s|] [l|] [v|] am]; simpl; fold m.
  all: split; [intros; simplify_eq; try done|].
  all: split; [intros ? ?; simplify_eq; try by rewrite ?app_nil_r|].
  all: intros ? Hmanual; simplify_eq.
  all: try (destruct Hmanual; done).
  all: rewrite ?app_nil_r; split; [done|].
  all: intros r Hr; rewrite ?elem_of_app in Hr.
  all: repeat match goal with
         | H : _ ∨ _ |- _ => destruct H
         | H : _ ∈ getAssertionResult _ _ _ _ |- _ =>
             apply getAssertionResult_name in H
         end; congruence.
Qed.

Lemma implicit_minScore_witness :
  getAssertionResults [Some emptyAudit] noOptions
    = getAssertionResult [emptyAudit] Optimistic MinScore one
  ∧ getAssertionResults [Some emptyAudit] (sampleOptions 1500)
      = manualAssertionResults [emptyAudit] (sampleOptions 1500).
Proof.
  split.
  - apply (implicit_minScore [emptyAudit] noOptions); reflexivity.
  - apply (implicit_minScore [emptyAudit] (sampleOptions 1500));
      [reflexivity|]. right. discriminate.
Defined.

(** ** Budget deriver *)

Lemma budgetRowStep_events st row :
  budgetRowStep st row = foldl eventStep st (rowEvents row).
Proof.
  destruct st as [results keys].
  unfold budgetRowStep, rowEvents, eventStep, countOver, sizeOver.
  fold (sizeKey row). fold (countKey row).
  destruct (truthyNum (sizeOverBudget row)),
    (truthyStr (countOverBudget row)),
    (matchDigits (default ""%string (countOverBudget row)));
    cbn [foldl app fst snd andb negb];
    repeat (case_bool_decide; cbn [foldl app fst snd andb negb] in *);
    done.
Qed.

Lemma foldl_budgetRowStep_events rows st :
  foldl budgetRowStep st rows = foldl eventStep st (flat_map rowEvents rows).
Proof.
  revert st. induction rows as [|row rows IH]; intros st; [done|].
  simpl. by rewrite foldl_app, IH, budgetRowStep_events.
Qed.

Lemma getBudgetAssertionResults_events batch :
  getBudgetAssertionResults batch
    = fst (foldl eventStep ([], ∅) (flat_map rowEvents (budgetRows batch))).
Proof.
  unfold getBudgetAssertionResults. f_equal.
  rewrite <- foldl_budgetRowStep_events.
  generalize ([] : list AssertionResult, ∅ : gset string).
  induction batch as [|a batch IH]; intros st; [done|].
  simpl. rewrite foldl_app, <- IH.
  by destruct (details a ≫= items).
Qed.

Lemma getAssertionResultsForBudgetRow_spec k a e :
  length (getAssertionResultsForBudgetRow k a e) ≤ 1
  ∧ ∀ r, r ∈ getAssertionResultsForBudgetRow k a e →
      auditProperty r = Some k
      ∧ match a with
        | Some (Fin q) =>
            name r = MaxNumericValue ∧ actual r = Fin q ∧ expected r = e
        | _ => name r = AuditRan ∧ expected r = one ∧ actual r = zero
        end.
Proof.
  unfold getAssertionResultsForBudgetRow.
  set (pseudo := {| score := Some zero; scoreDisplayMode := None;
                    numericValue := a; details := None; title := None;
                    description := None |}).
  assert (getAssertionResult [pseudo] Pessimistic MaxNumericValue e
            = match a with
              | Some (Fin q) =>
                  if num_leb (Fin q) e then []
                  else [mkResult MaxNumericValue e (Fin q) [Fin q] "<="%string]
              | _ => [mkResult AuditRan one zero [zero] "=="%string]
              end) as ->
    by (by destruct a as [[q| | |]|]).
  destruct a as [[q| | |]|]; try destruct (num_leb _ _);
    (split; [simpl; lia|]); intros r Hr;
    first [by apply elem_of_nil in Hr
          |by apply list_elem_of_singleton in Hr as ->].
Qed.

(** The state of the loop after a sequence of events: the keys seen are the
    keys of the events, no two results have the same key, and each result
    comes from the first event of its key. *)
Lemma eventStep_invariant evs :
  let st := foldl eventStep ([], ∅) evs in
  (∀ k, k ∈ snd st ↔ k ∈ (eventKey <$> evs))
  ∧ NoDup (auditProperty <$> fst st)
  ∧ ∀ r, r ∈ fst st →
      ∃ epre ev epost,
        evs = epre ++ ev :: epost
        ∧ (eventKey ev ∉ eventKey <$> epre)
        ∧ r ∈ getAssertionResultsForBudgetRow (eventKey ev) (snd (fst ev)) (snd ev).
Proof.
  induction evs as [|ev evs IH] using rev_ind.
  { simpl. split; [set_solver|]. split; [constructor|].
    by intros r ?%elem_of_nil. }
  rewrite foldl_snoc. destruct IH as (Hkeys & Hnodup & Hres).
  set (st := foldl eventStep ([], ∅) evs) in *.
  unfold eventStep. case_bool_decide as Hseen; cbn [fst snd].
  - split; [|split; [done|]].
    + intros k. rewrite fmap_app, elem_of_app, Hkeys.
      split; [by left|]. intros [?|Hk%list_elem_of_singleton]; [done|].
      subst k. by apply Hkeys.
    + intros r (epre & ev0 & epost & -> & ? & ?)%Hres.
      exists epre, ev0, (epost ++ [ev]).
      by rewrite <- app_assoc.
  - assert (Hfresh : eventKey ev ∉ (eventKey <$> evs))
      by (by rewrite <- Hkeys).
    destruct (getAssertionResultsForBudgetRow_spec (eventKey ev) (snd (fst ev)) (snd ev))
      as [Hlen Hnew].
    split; [|split].
    + intros k. rewrite fmap_app, elem_of_app, elem_of_union, Hkeys.
      rewrite elem_of_singleton. simpl. by rewrite list_elem_of_singleton.
    + rewrite fmap_app. apply NoDup_app. split; [done|]. split.
      * intros p (r & -> & Hr)%list_elem_of_fmap
                 (r' & Hp & Hr')%list_elem_of_fmap.
        destruct (Hres r Hr) as (epre & ev0 & epost & -> & _ & Hr0).
        apply getAssertionResultsForBudgetRow_spec in Hr0 as [Hr0 _].
        apply Hnew in Hr' as [Hr' _].
        apply Hfresh. rewrite fmap_app, elem_of_app. right.
        rewrite fmap_cons. replace (eventKey ev) with (eventKey ev0) by congruence.
        apply list_elem_of_here.
      * destruct (getAssertionResultsForBudgetRow _ _ _) as [|r0 [|r1 l]];
          [constructor|apply NoDup_singleton|simpl in Hlen; lia].
    + intros r [Hr|Hr]%elem_of_app.
      * destruct (Hres r Hr) as (epre & ev0 & epost & -> & ? & ?).
        exists epre, ev0, (epost ++ [ev]). by rewrite <- app_assoc.
      * by exists evs, ev, [].
Qed.


Lemma rowEvents_cases row ev :
  ev ∈ rowEvents row →
  (eventKey ev = sizeKey row ∧ overSize row ∧ snd (fst ev) = size row
   ∧ snd ev = num_sub (toNumber (size row)) (sizeOver row))
  ∨ (eventKey ev = countKey row ∧ overCount row
     ∧ snd (fst ev) = requestCount row
     ∧ snd ev = num_sub (toNumber (requestCount row)) (countOver row)).
Proof.
  unfold rowEvents, overSize, overCount.
  intros [Hev|Hev]%elem_of_app; [left|right].
  - destruct (truthyNum _); [|by apply elem_of_nil in Hev].
    by apply list_elem_of_singleton in Hev as ->.
  - destruct (truthyStr _); [|by apply elem_of_nil in Hev].
    destruct (matchDigits _) eqn:Hm; [|by apply elem_of_nil in Hev].
    by apply list_elem_of_singleton in Hev as ->.
Qed.







(** The scenario of the specification: one report with the script row of
    size 500000 that is 100000 over budget. *)
Example budget_scenario :
  getBudgetAssertionResults
    [budgetAudit [budgetRow "script" (Some 500000%Z) (Some 100000%Z)]]
  = [withAuditProperty "script.size"
       (mkResult MaxNumericValue (num_of_Z 400000) (num_of_Z 500000)
                 [num_of_Z 500000] "<=")].
Proof. by vm_compute. Qed.

Example budget_first_report_only :
  getBudgetAssertionResults sampleBudgetBatch
  = [withAuditProperty "script.size"
       (mkResult MaxNumericValue (num_of_Z 400000) (num_of_Z 500000)
                 [num_of_Z 500000] "<=")].
Proof. by vm_compute. Qed.

(** ** Category assertions *)

(** C9, as stated, fails for a path of zero segments: the key [categories]
    alone has no property path, the resolver leaves [auditProperty]
    undefined, and the assertion is evaluated as that of an ordinary audit
    named [categories]; nothing is thrown. *)
Lemma categories_without_path_counterexample :
  tail (split "categories") = []
  ∧ a_auditProperty
      (auditToAssertOf splitMarkdownLink_model [sampleLhr] "categories")
    = None
  ∧ getAssertionResultsForAudit "categories" None [None] noOptions [sampleLhr]
    = Normal [mkResult AuditRan one zero [zero] ">="%string]
  ∧ ∃ r, getAllFilteredAssertionResults_model
           (baseOptionsOf [("categories"%string, LevelOnly LevelError)])
           [sampleLhr]
         = Normal [r].
Proof.
  split; [reflexivity|]. split; [reflexivity|]. split; [reflexivity|].
  eexists. by vm_compute.
Qed.

(** C9, amended: a [categories] assertion whose property path is present
    and has not exactly one segment (two or more segments) throws the error
    that names the path, and gives no result.  Without a property path (the
    key [categories] alone) nothing is thrown: the assertion is evaluated as
    that of an ordinary audit. *)
Theorem categories_property_path (auditProperty : list string)
  (auditResults : list (option AuditResult)) (options : AssertionOptions)
  (lhrs : list LHR) :
  length auditProperty ≠ 1 →
  getAssertionResultsForAudit "categories" (Some auditProperty) auditResults
                              options lhrs
    = Throw (JsError ("Invalid resource-summary assertion "
                        ++ dquote ++ join auditProperty ++ dquote)%string)
  ∧ getAssertionResultsForAudit "categories" None auditResults options lhrs
    = Normal (getAssertionResults auditResults options).
Proof.
  intros Hlen. split; [|reflexivity].
  unfold getAssertionResultsForAudit.
  rewrite bool_decide_eq_false_2 by done.
  rewrite bool_decide_eq_true_2 by done. simpl.
  unfold getCategoryAssertionResults.
  by rewrite bool_decide_eq_false_2 by done.
Qed.

Lemma categories_property_path_witness :
  getAssertionResultsForAudit "categories" (Some ["performance"; "score"]%string)
                              [] noOptions []
    = Throw (JsError ("Invalid resource-summary assertion "
                        ++ dquote ++ "performance.score" ++ dquote)%string).
Proof.
  apply (categories_property_path ["performance"; "score"]%string [] noOptions []).
  simpl. lia.
Defined.

(** ** The assertion matrix *)

(** C8, as stated, fails for [matchingUrlPattern]: a configuration with
    [assertMatrix] and a URL pattern next to it is accepted, and the entries
    of the matrix are evaluated. *)
Lemma assertMatrix_with_pattern_counterexample :
  ¬ (∀ options lhrs matrix,
       assertMatrix options = Some matrix →
       assertions (base options) ≠ None ∨ preset (base options) ≠ None
       ∨ budgetsFile (base options) ≠ None
       ∨ base_aggregationMethod (base options) ≠ None
       ∨ matchingUrlPattern (base options) ≠ None →
       getAllAssertionResults_model options lhrs
         = Throw (JsError "Cannot use assertMatrix with other options")).
Proof.
  intros H.
  specialize (H matrixWithPattern [sampleLhr] _ eq_refl).
  assert (∃ r, getAllAssertionResults_model matrixWithPattern [sampleLhr]
               = Normal [r]) as [r Hr] by (eexists; by vm_compute).
  rewrite Hr in H. discriminate H.
  do 4 right. discriminate.
Qed.

Section Orchestrator.

Variable kebabCase : string → string.
Variable merge : BaseOptions → BaseOptions → BaseOptions.
Variable groupBy : list LHR → (LHR → string) → list (list LHR).
Variable requirePreset : string → completion BaseOptions.
Variable computeRepresentativeRuns : list (list (LHR * LHR)) → list LHR.
Variable splitMarkdownLink : string → list Segment.
Variable regExpTest : string → string → completion bool.

Let evaluate :=
  getAllFilteredAssertionResults kebabCase merge requirePreset
    computeRepresentativeRuns splitMarkdownLink regExpTest.
Let orchestrate :=
  getAllAssertionResults kebabCase merge groupBy requirePreset
    computeRepresentativeRuns splitMarkdownLink regExpTest.

(** C8, amended: the orchestrator throws the error "Cannot use
    assertMatrix with other options" whenever [assertMatrix] is present
    together with [assertions], a non-empty [preset], a non-empty
    [budgetsFile] or [aggregationMethod]; a [matchingUrlPattern] next to
    the matrix is not an error.  Otherwise it evaluates each entry of the
    matrix (the configuration itself, when there is no matrix) against
    each URL group. *)
Theorem assertMatrix_exclusive (options : Options) (lhrs : list LHR) :
  (∀ matrix,
     assertMatrix options = Some matrix →
     assertions (base options) ≠ None
     ∨ truthyStr (preset (base options)) = true
     ∨ truthyStr (budgetsFile (base options)) = true
     ∨ base_aggregationMethod (base options) ≠ None →
     orchestrate options lhrs
       = Throw (JsError "Cannot use assertMatrix with other options"))
  ∧ (∀ matrix,
       assertMatrix options = Some matrix →
       assertions (base options) = None →
       truthyStr (preset (base options)) = false →
       truthyStr (budgetsFile (base options)) = false →
       base_aggregationMethod (base options) = None →
       orchestrate options lhrs
         = evaluateEach evaluate matrix (groupBy lhrs finalUrl))
  ∧ (assertMatrix options = None →
     orchestrate options lhrs
       = evaluateEach evaluate [base options] (groupBy lhrs finalUrl)).
Proof.
  unfold orchestrate, getAllAssertionResults, evaluateEach.
  split; [|split].
  - intros matrix -> Hother.
    destruct (assertions (base options)), (truthyStr (preset (base options))),
      (truthyStr (budgetsFile (base options))),
      (base_aggregationMethod (base options)); try done.
    by destruct Hother as [?|[?|[?|?]]].
  - by intros matrix -> -> -> -> ->.
  - by intros ->.
Qed.

End Orchestrator.

Lemma assertMatrix_exclusive_witness :
  getAllAssertionResults_model
    {| base := baseOptionsOf sampleAssertions;
       assertMatrix := Some [baseOptionsOf sampleAssertions] |}
    [sampleLhr]
  = Throw (JsError "Cannot use assertMatrix with other options").
Proof.
  eapply (assertMatrix_exclusive kebabCase_model merge_model groupBy_model
            requirePreset_model computeRepresentativeRuns_model
            splitMarkdownLink_model regExpTest_model);
    [reflexivity|]. left. discriminate.
Defined.

(** ** Keys that are not in kebab case *)

Lemma elem_of_uniq keys k : k ∈ uniq keys ↔ k ∈ keys.
Proof.
  induction keys as [|k0 keys IH]; [done|]. simpl.
  rewrite !elem_of_cons, list_elem_of_filter, IH.
  destruct (decide (k = k0)); tauto.
Qed.



Section Resolver.

Variable kebabCase : string → string.
Variable merge : BaseOptions → BaseOptions → BaseOptions.
Variable requirePreset : string → completion BaseOptions.
Variable computeRepresentativeRuns : list (list (LHR * LHR)) → list LHR.
Variable splitMarkdownLink : string → list Segment.
Variable regExpTest : string → string → completion bool.

Let resolve :=
  resolveAssertionOptionsAndLhrs kebabCase merge requirePreset
    computeRepresentativeRuns splitMarkdownLink regExpTest.

Lemma resolve_auditsToAssert baseOptions unfilteredLhrs resolved :
  resolve baseOptions unfilteredLhrs = Normal resolved →
  r_auditsToAssert resolved
    = map (auditToAssertOf splitMarkdownLink (r_lhrs resolved))
          (uniq (map kebabCase (map fst (r_assertions resolved)))).
Proof.
  unfold resolve, resolveAssertionOptionsAndLhrs.
  destruct (presetMatch _) as [presetName|]; simpl.
  - destruct (requirePreset presetName) as [presetData|]; simpl; [|done].
    destruct (if truthyStr _ then _ else _) as [lhrs|]; simpl; [|done].
    case_bool_decide; [done|]. by intros [= <-].
  - destruct (if truthyStr _ then _ else _) as [lhrs|]; simpl; [|done].
    case_bool_decide; [done|]. by intros [= <-].
Qed.


End Resolver.


(** With the camel-case key alone, the pipeline returns nothing, although
    the audit is over the asserted level. *)
Example camelCase_key_alone :
  getAllFilteredAssertionResults_model
    (baseOptionsOf [("firstContentfulPaint"%string,
                     LevelAndOptions LevelError (sampleOptions 1500))])
    [sampleLhr]
  = Normal [].
Proof. by vm_compute. Qed.

(** ** Scenarios of the specification *)

(** Two reports with numeric values 1200 and 1800 against
    [maxNumericValue: 1500]: no violation with the optimistic method, one
    violation with the pessimistic one. *)
Example scenario_optimistic :
  getAssertionResults
    [Some (auditWithNumericValue 1200); Some (auditWithNumericValue 1800)]
    {| minScore := None; maxLength := None;
       maxNumericValue := Some (num_of_Z 1500);
       aggregationMethod := Some Optimistic |}
  = [].
Proof. by vm_compute. Qed.

Example scenario_pessimistic :
  getAssertionResults
    [Some (auditWithNumericValue 1200); Some (auditWithNumericValue 1800)]
    {| minScore := None; maxLength := None;
       maxNumericValue := Some (num_of_Z 1500);
       aggregationMethod := Some Pessimistic |}
  = [mkResult MaxNumericValue (num_of_Z 1500) (num_of_Z 1800)
              [num_of_Z 1200; num_of_Z 1800] "<="].
Proof. by vm_compute. Qed.

(** * Further properties of the code *)

(** ** The order of the numbers *)

Lemma num_le_trans a b c : num_le a b → num_le b c → num_le a c.
Proof.
  unfold num_le.
  destruct a as [x| | |], b as [y| | |], c as [z| | |]; simpl; try done.
  rewrite !bool_decide_eq_true. apply transitivity.
Qed.

Lemma num_le_antisym a b : num_le a b → num_le b a → a = b.
Proof.
  unfold num_le.
  destruct a as [x| | |], b as [y| | |]; simpl; try done.
  rewrite !bool_decide_eq_true. intros ??. f_equal. by apply (anti_symm Qcle).
Qed.

#[global] Instance num_le_antisymm : AntiSymm (=) num_le.
Proof. intros a b. apply num_le_antisym. Qed.

Lemma min_le_max x y vs : isMinOf x vs → isMaxOf y vs → num_le x y.
Proof. intros [_ Hmin] [Hy _]. by apply Hmin. Qed.

(** ** Violations of the generic evaluator *)

(** X1: [getAssertionResult] returns at most one result, and every result
    is a violation in the terms of the operator table: its operator is the
    one of its name, and its actual value does not pass the test of its name
    against its expected value. *)
Theorem getAssertionResult_violation rs m t e :
  length (getAssertionResult rs m t e) ≤ 1
  ∧ ∀ r, r ∈ getAssertionResult rs m t e →
      operator r = fst (AUDIT_TYPE_OPERATORS (name r))
      ∧ snd (AUDIT_TYPE_OPERATORS (name r)) (actual r) (expected r) = false.
Proof.
  destruct (decide (failureToMeasure (map (AUDIT_TYPE_VALUE_GETTERS t) rs) m))
    as [H|H].
  - rewrite (getAssertionResult_not_measured _ _ _ _ H).
    split; [done|]. by intros r ->%list_elem_of_singleton.
  - rewrite (getAssertionResult_measured _ _ _ _ H). simpl.
    destruct (passesFn _ _ _) eqn:Hpass.
    + split; [simpl; lia|]. by intros r ?%elem_of_nil.
    + split; [done|]. by intros r ->%list_elem_of_singleton.
Qed.

Lemma getAssertionResult_nil rs m t e :
  let raw := map (AUDIT_TYPE_VALUE_GETTERS t) rs in
  getAssertionResult rs m t e = []
  ↔ ¬ failureToMeasure raw m
    ∧ passesFn t (getValueForAggregationMethod (filterFinite raw) m t) e
      = true.
Proof.
  intros raw.
  destruct (decide (failureToMeasure raw m)) as [H|H].
  - rewrite (getAssertionResult_not_measured _ _ _ _ H).
    split; [done|]. by intros [? _].
  - rewrite (getAssertionResult_measured _ _ _ _ H). simpl. fold raw.
    destruct (passesFn _ _ _); split; try done. by intros [_ ?].
Qed.

(** X2: [getAssertionResult] returns no violation exactly when the
    failure-to-measure rule does not apply (no raw value is missing with the
    pessimistic method, some raw value is finite with the others) and the
    aggregate of the finite raw values passes the test of the kind against
    the expected value. *)
Theorem getAssertionResult_passes rs m t e :
  let raw := map (AUDIT_TYPE_VALUE_GETTERS t) rs in
  getAssertionResult rs m t e = []
  ↔ ¬ ((Forall (λ v, isFiniteNumber v = false) raw ∧ m ≠ Pessimistic)
       ∨ (Exists (λ v, isFiniteNumber v = false) raw ∧ m = Pessimistic))
    ∧ snd (AUDIT_TYPE_OPERATORS t)
          (getValueForAggregationMethod (filterFinite raw) m t) e
      = true.
Proof.
  intros raw. fold (failureToMeasure raw m). simpl snd.
  destruct (decide (failureToMeasure raw m)) as [H|H].
  - rewrite (getAssertionResult_not_measured _ _ _ _ H).
    split; [discriminate|]. by intros [Hnot _].
  - rewrite (getAssertionResult_measured _ _ _ _ H). cbn zeta. fold raw.
    destruct (passesFn t _ e).
    + by split.
    + split; [discriminate|]. intros [_ Hpass]. discriminate Hpass.
Qed.

(** X3: a threshold that is easier to meet gives no new violation.  When an
    assertion with a [max] kind passes against [e], it passes against every
    [e'] above [e]; when a [minScore] assertion passes against [e], it passes
    against every [e'] below [e]. *)
Theorem threshold_monotone rs m t e e' :
  getAssertionResult rs m t e = [] →
  (t = MaxLength ∨ t = MaxNumericValue → num_le e e' →
     getAssertionResult rs m t e' = [])
  ∧ (t = MinScore → num_le e' e → getAssertionResult rs m t e' = []).
Proof.
  intros [Hm Hpass]%getAssertionResult_nil.
  split; intros Ht Hle; apply getAssertionResult_nil; (split; [done|]).
  - destruct Ht as [-> | ->]; simpl in *; by eapply num_le_trans.
  - subst t. simpl in *. unfold num_geb in *. by eapply num_le_trans.
Qed.

Lemma threshold_monotone_witness :
  getAssertionResult [auditWithNumericValue 1200] Optimistic MaxNumericValue
                     (num_of_Z 2000) = [].
Proof.
  assert (getAssertionResult [auditWithNumericValue 1200] Optimistic
            MaxNumericValue (num_of_Z 1500) = []) as H by reflexivity.
  destruct (threshold_monotone [auditWithNumericValue 1200] Optimistic
              MaxNumericValue (num_of_Z 1500) (num_of_Z 2000) H) as [Hmax _].
  apply Hmax; [by right|reflexivity].
Defined.

(** ** Aggregation: how the methods compare *)

Lemma measured_all_finite raw :
  ¬ failureToMeasure raw Pessimistic →
  length (filterFinite raw) = length raw.
Proof.
  intros H. apply filterFinite_all. intros Hex. apply H. by right.
Qed.

(** X4: for at least one report, an assertion that passes with the
    pessimistic method passes with the optimistic method. *)
Theorem pessimistic_implies_optimistic rs t e :
  rs ≠ [] →
  getAssertionResult rs Pessimistic t e = [] →
  getAssertionResult rs Optimistic t e = [].
Proof.
  intros Hne [Hm Hpass]%getAssertionResult_nil.
  apply getAssertionResult_nil.
  set (raw := map (AUDIT_TYPE_VALUE_GETTERS t) rs) in *.
  pose proof (measured_all_finite raw Hm) as Hlen.
  assert (filterFinite raw ≠ []) as Hfne.
  { intros Hnil. rewrite Hnil in Hlen. unfold raw in Hlen.
    rewrite length_map in Hlen. by destruct rs. }
  split.
  - intros [[Hall _]|[_ ?]]; [|done].
    apply filterFinite_nil in Hall. by destruct (filterFinite raw).
  - pose proof (Math_min_spec _ Hfne (filterFinite_isFin raw)) as Hmin.
    pose proof (Math_max_spec _ Hfne (filterFinite_isFin raw)) as Hmax.
    pose proof (min_le_max _ _ _ Hmin Hmax) as Hle.
    destruct t; simpl in *; unfold num_geb in *;
      first [done | by eapply num_le_trans].
Qed.

Lemma pessimistic_implies_optimistic_witness :
  getAssertionResult
    [auditWithNumericValue 1200; auditWithNumericValue 1400]
    Optimistic MaxNumericValue (num_of_Z 1500) = [].
Proof.
  apply pessimistic_implies_optimistic; [discriminate|reflexivity].
Defined.

Lemma isMinOf_unique x y vs vs' :
  vs ≡ₚ vs' → isMinOf x vs → isMinOf y vs' → x = y.
Proof.
  intros Hp [Hx Hminx] [Hy Hminy]. apply num_le_antisym.
  - apply Hminx. by rewrite Hp.
  - apply Hminy. by rewrite <- Hp.
Qed.

Lemma isMaxOf_unique x y vs vs' :
  vs ≡ₚ vs' → isMaxOf x vs → isMaxOf y vs' → x = y.
Proof.
  intros Hp [Hx Hmaxx] [Hy Hmaxy]. apply num_le_antisym.
  - apply Hmaxy. by rewrite <- Hp.
  - apply Hmaxx. by rewrite Hp.
Qed.

Lemma Math_min_permutation vs vs' :
  vs ≡ₚ vs' → Forall isFin vs → Math_min vs = Math_min vs'.
Proof.
  intros Hp Hfin.
  assert (Forall isFin vs') as Hfin' by (by rewrite <- Hp).
  destruct vs as [|v vs].
  - by apply Permutation_nil_l in Hp as ->.
  - apply (isMinOf_unique _ _ _ _ Hp); apply Math_min_spec; try done.
    intros ->. by apply Permutation_nil_r in Hp.
Qed.

Lemma Math_max_permutation vs vs' :
  vs ≡ₚ vs' → Forall isFin vs → Math_max vs = Math_max vs'.
Proof.
  intros Hp Hfin.
  assert (Forall isFin vs') as Hfin' by (by rewrite <- Hp).
  destruct vs as [|v vs].
  - by apply Permutation_nil_l in Hp as ->.
  - apply (isMaxOf_unique _ _ _ _ Hp); apply Math_max_spec; try done.
    intros ->. by apply Permutation_nil_r in Hp.
Qed.

Lemma sort_permutation vs vs' :
  vs ≡ₚ vs' → Forall isFin vs → sort num_sub vs = sort num_sub vs'.
Proof.
  intros Hp Hfin.
  assert (Forall isFin vs') as Hfin' by (by rewrite <- Hp).
  apply (StronglySorted_unique num_le); [by apply sort_sorted..|].
  by rewrite !sort_perm.
Qed.

Lemma aggregate_perm vs vs' m t :
  vs ≡ₚ vs' → Forall isFin vs →
  getValueForAggregationMethod vs m t = getValueForAggregationMethod vs' m t.
Proof.
  intros Hp Hfin. unfold getValueForAggregationMethod.
  rewrite (Math_min_permutation _ _ Hp Hfin), (Math_max_permutation _ _ Hp Hfin).
  change (λ a b : num, num_sub a b) with num_sub.
  by rewrite (sort_permutation _ _ Hp Hfin), (Permutation_length Hp).
Qed.

(** X5: the aggregate of finite values does not depend on the order of the
    reports: for every method and kind, two sequences of finite values that
    are permutations of each other have the same aggregate. *)
Theorem aggregate_permutation vs vs' m t :
  vs ≡ₚ vs' → Forall isFin vs →
  getValueForAggregationMethod vs m t = getValueForAggregationMethod vs' m t.
Proof.
  intros Hp Hfin. destruct m.
  - unfold getValueForAggregationMethod.
    by rewrite (Math_min_permutation _ _ Hp Hfin),
      (Math_max_permutation _ _ Hp Hfin).
  - unfold getValueForAggregationMethod.
    by rewrite (Math_min_permutation _ _ Hp Hfin),
      (Math_max_permutation _ _ Hp Hfin).
  - unfold getValueForAggregationMethod.
    change (λ a b : num, num_sub a b) with num_sub.
    by rewrite (sort_permutation _ _ Hp Hfin), (Permutation_length Hp).
  - unfold getValueForAggregationMethod.
    by rewrite (Math_max_permutation _ _ Hp Hfin).
Qed.

Lemma aggregate_permutation_witness :
  getValueForAggregationMethod sampleValues Median MaxLength
  = getValueForAggregationMethod (reverse sampleValues) Median MaxLength.
Proof.
  apply aggregate_permutation; [|exact sampleValues_isFin].
  symmetry. apply reverse_Permutation.
Defined.

Lemma failureToMeasure_permutation raw raw' m :
  raw ≡ₚ raw' → failureToMeasure raw m ↔ failureToMeasure raw' m.
Proof. intros Hp. unfold failureToMeasure. by rewrite Hp. Qed.

Lemma filterFinite_permutation raw raw' :
  raw ≡ₚ raw' → filterFinite raw ≡ₚ filterFinite raw'.
Proof. intros Hp. unfold filterFinite. by rewrite Hp. Qed.

(** X6: the order of the reports does not change the outcome of
    [getAssertionResult]: for two orders of the same reports it returns
    results with the same name, operator, expected and actual value, and
    with values that are permutations of each other. *)
Theorem getAssertionResult_report_order rs rs' m t e :
  rs ≡ₚ rs' →
  Forall2 (λ r r', name r = name r' ∧ operator r = operator r'
                   ∧ expected r = expected r' ∧ actual r = actual r'
                   ∧ values r ≡ₚ values r')
          (getAssertionResult rs m t e) (getAssertionResult rs' m t e).
Proof.
  intros Hp.
  assert (map (AUDIT_TYPE_VALUE_GETTERS t) rs
            ≡ₚ map (AUDIT_TYPE_VALUE_GETTERS t) rs') as Hraw
    by (by apply Permutation_map).
  destruct (decide (failureToMeasure (map (AUDIT_TYPE_VALUE_GETTERS t) rs) m))
    as [H|H].
  - rewrite (getAssertionResult_not_measured _ _ _ _ H).
    rewrite (failureToMeasure_permutation _ _ _ Hraw) in H.
    rewrite (getAssertionResult_not_measured _ _ _ _ H).
    constructor; [|constructor]. simpl. repeat split.
    unfold didRunOf. by apply Permutation_map.
  - rewrite (getAssertionResult_measured _ _ _ _ H).
    rewrite (failureToMeasure_permutation _ _ _ Hraw) in H.
    rewrite (getAssertionResult_measured _ _ _ _ H). simpl.
    pose proof (filterFinite_permutation _ _ Hraw) as Hf.
    rewrite <- (aggregate_perm _ _ m t Hf)
      by apply filterFinite_isFin.
    destruct (passesFn _ _ _); constructor; [|constructor].
    simpl. by repeat split.
Qed.

Lemma getAssertionResult_report_order_witness :
  Forall2 (λ r r', name r = name r' ∧ operator r = operator r'
                   ∧ expected r = expected r' ∧ actual r = actual r'
                   ∧ values r ≡ₚ values r')
    (getAssertionResult
       [auditWithNumericValue 1200; auditWithNumericValue 1800]
       Pessimistic MaxNumericValue (num_of_Z 1500))
    (getAssertionResult
       [auditWithNumericValue 1800; auditWithNumericValue 1200]
       Pessimistic MaxNumericValue (num_of_Z 1500)).
Proof. apply getAssertionResult_report_order. apply Permutation_swap. Defined.

(** ** Constant sequences *)

Lemma Math_min_replicate q n :
  0 < n → Math_min (replicate n (Fin q)) = Fin q.
Proof.
  intros Hn.
  assert (replicate n (Fin q) ≠ []) as Hne by (by destruct n; [lia|]).
  destruct (Math_min_spec _ Hne) as [Hin _].
  { apply Forall_replicate. by exists q. }
  by apply elem_of_replicate in Hin as [? _].
Qed.

Lemma Math_max_replicate q n :
  0 < n → Math_max (replicate n (Fin q)) = Fin q.
Proof.
  intros Hn.
  assert (replicate n (Fin q) ≠ []) as Hne by (by destruct n; [lia|]).
  destruct (Math_max_spec _ Hne) as [Hin _].
  { apply Forall_replicate. by exists q. }
  by apply elem_of_replicate in Hin as [? _].
Qed.

Lemma Qc_half_of_double (q : Qc) : ((q + q) / (1 + 1))%Qc = q.
Proof. field. by apply (bool_decide_unpack _). Qed.

Lemma aggregate_replicate q n m t :
  0 < n → getValueForAggregationMethod (replicate n (Fin q)) m t = Fin q.
Proof.
  intros Hn. unfold getValueForAggregationMethod.
  destruct m;
    try (destruct (_ || _);
         first [by apply Math_min_replicate | by apply Math_max_replicate]).
  change (λ a b : num, num_sub a b) with num_sub.
  rewrite sort_replicate, length_replicate.
  - case_bool_decide as Hodd.
    + rewrite index_replicate; [done|]. div_lia.
    + assert (2 ≤ n).
      { pose proof (Nat.mod_upper_bound n 2).
        pose proof (Nat.div_mod_eq n 2). lia. }
      rewrite !index_replicate by div_lia. simpl toNumber. simpl num_add.
      by rewrite num_div_two, Qc_half_of_double.
  - rewrite num_pos_sub_Fin. apply bool_decide_eq_false_2.
    apply (irreflexivity Qclt).
Qed.



(** ** Per-audit assembly: what the results say *)

Lemma getAssertionResult_expected rs m t e r :
  r ∈ getAssertionResult rs m t e →
  (name r = AuditRan ∧ expected r = one ∧ actual r = zero)
  ∨ (name r = t ∧ expected r = e).
Proof.
  destruct (decide (failureToMeasure (map (AUDIT_TYPE_VALUE_GETTERS t) rs) m))
    as [H|H].
  - rewrite (getAssertionResult_not_measured _ _ _ _ H).
    intros ->%list_elem_of_singleton. by left.
  - rewrite (getAssertionResult_measured _ _ _ _ H). simpl.
    destruct (passesFn _ _ _); [by intros ?%elem_of_nil|].
    intros ->%list_elem_of_singleton. by right.
Qed.

(** X8: when any report lacks the audit, [getAssertionResults] returns one
    [auditRan] violation and evaluates no threshold, whatever the options
    and the aggregation method are: expected 1, actual 0, and a value per
    report, 0 for a report without the audit and 1 for the others. *)
Theorem missing_audit_short_circuits rs options :
  None ∈ rs →
  ∃ r, getAssertionResults rs options = [r]
       ∧ name r = AuditRan ∧ expected r = one ∧ actual r = zero
       ∧ values r = map (λ result : option AuditResult,
                           match result with
                           | None => zero
                           | Some _ => one
                           end) rs.
Proof.
  intros H. rewrite (getAssertionResults_undefined _ _ H).
  eexists. split; [done|]. simpl. repeat split.
  apply map_ext. by intros [].
Qed.

Lemma missing_audit_short_circuits_witness :
  ∃ r, getAssertionResults [Some (auditWithNumericValue 1200); None]
                           (sampleOptions 1500) = [r]
       ∧ values r = [one; zero].
Proof.
  destruct (missing_audit_short_circuits
              [Some (auditWithNumericValue 1200); None] (sampleOptions 1500))
    as (r & Hr & _ & _ & _ & Hv); [apply list_elem_of_further, list_elem_of_here|].
  exists r. by split.
Defined.

(** X9: with every audit result defined, each result of
    [getAssertionResults] is either an [auditRan] violation (expected 1,
    actual 0) or a violation of a configured threshold whose expected value
    is that threshold; a [minScore] violation has the explicit [minScore] as
    expected value, or 1 when no threshold at all is configured. *)
Theorem expected_is_configured rs options r :
  r ∈ getAssertionResults (Some <$> rs) options →
  (name r = AuditRan ∧ expected r = one ∧ actual r = zero)
  ∨ (name r = MaxLength ∧ maxLength options = Some (expected r))
  ∨ (name r = MaxNumericValue ∧ maxNumericValue options = Some (expected r))
  ∨ (name r = MinScore
     ∧ (minScore options = Some (expected r)
        ∨ (minScore options = None ∧ maxLength options = None
           ∧ maxNumericValue options = None ∧ expected r = one))).
Proof.
  unfold getAssertionResults.
  rewrite existsb_isUndefined_defined, omap_id_defined.
  destruct options as [[s|] [l|] [v|] am]; simpl;
    rewrite ?elem_of_app; intros Hr;
    repeat match goal with
      | H : _ ∨ _ |- _ => destruct H
      | H : _ ∈ [] |- _ => by apply elem_of_nil in H
      | H : _ ∈ getAssertionResult _ _ _ _ |- _ =>
          apply getAssertionResult_expected in H as [?|[? ?]]
      end;
    first [by left | subst; tauto].
Qed.

Lemma expected_is_configured_witness :
  let rs := [auditWithNumericValue 1800; auditWithNumericValue 2000] in
  let options := sampleOptions 1500 in
  ∃ r, r ∈ getAssertionResults (Some <$> rs) options
       ∧ ((name r = AuditRan ∧ expected r = one ∧ actual r = zero)
          ∨ (name r = MaxLength ∧ maxLength options = Some (expected r))
          ∨ (name r = MaxNumericValue
             ∧ maxNumericValue options = Some (expected r))
          ∨ (name r = MinScore
             ∧ (minScore options = Some (expected r)
                ∨ (minScore options = None ∧ maxLength options = None
                   ∧ maxNumericValue options = None ∧ expected r = one)))).
Proof.
  intros rs options. eexists. split; [apply list_elem_of_here|].
  apply (expected_is_configured rs options). apply list_elem_of_here.
Defined.

(** ** Audits without a score *)

Lemma getAssertionResult_constant rs m t e q :
  rs ≠ [] →
  (∀ r, r ∈ rs → AUDIT_TYPE_VALUE_GETTERS t r = Some (Fin q)) →
  getAssertionResult rs m t e
    = if passesFn t (Fin q) e then []
      else [mkResult t e (Fin q) (replicate (length rs) (Fin q))
                     (operator_of t)].
Proof.
  intros Hne Hall.
  assert (map (AUDIT_TYPE_VALUE_GETTERS t) rs
            = replicate (length rs) (Some (Fin q))) as Hraw.
  { clear Hne. induction rs as [|r rs IH]; [done|]. simpl.
    rewrite Hall by apply list_elem_of_here. f_equal.
    apply IH. intros r' Hr'. by apply Hall, list_elem_of_further. }
  assert (filterFinite (replicate (length rs) (Some (Fin q)))
            = replicate (length rs) (Fin q)) as Hfiltered.
  { clear. induction (length rs) as [|n IH]; [done|]. cbn [replicate].
    by rewrite filterFinite_cons, IH. }
  assert (0 < length rs) as Hlen by (destruct rs; [done|simpl; lia]).
  rewrite getAssertionResult_measured; rewrite Hraw.
  - simpl. by rewrite Hfiltered, aggregate_replicate.
  - intros H%failureToMeasure_test. rewrite Hfiltered in H.
    rewrite !length_replicate in H.
    rewrite (bool_decide_eq_false_2 (length rs = 0)) in H by lia.
    by rewrite (bool_decide_eq_true_2 (length rs = length rs)) in H.
Qed.

(** X10: audits that have no numeric score and the display mode
    [notApplicable] count as score 1: with no [maxLength] and no
    [maxNumericValue], and a [minScore] that is absent or at most 1, reports
    that all carry such an audit give no violation, with every aggregation
    method. *)
Theorem notApplicable_passes rs options :
  rs ≠ [] →
  (∀ r, r ∈ rs →
        score r = None ∧ scoreDisplayMode r = Some "notApplicable"%string) →
  maxLength options = None → maxNumericValue options = None →
  num_le (default one (minScore options)) one →
  getAssertionResults (Some <$> rs) options = [].
Proof.
  intros Hne Hall Hl Hv Hle. unfold getAssertionResults.
  rewrite existsb_isUndefined_defined, omap_id_defined, Hl, Hv.
  assert (∀ e, num_le e one →
            getAssertionResult rs (default Optimistic (aggregationMethod options))
                               MinScore e = []) as Hpass.
  { intros e He.
    rewrite (getAssertionResult_constant _ _ _ _ (Q2Qc (inject_Z 1)) Hne).
    - change (passesFn MinScore (Fin (Q2Qc (inject_Z 1))) e)
        with (num_leb e one).
      by rewrite He.
    - intros r [Hs Hd]%Hall. simpl. by rewrite Hs, Hd. }
  destruct (minScore options) as [s|]; simpl; by apply Hpass.
Qed.

Lemma notApplicable_passes_witness :
  getAssertionResults
    (Some <$> [{| score := None;
                  scoreDisplayMode := Some "notApplicable"%string;
                  numericValue := None; details := None; title := None;
                  description := None |}])
    noOptions
  = [].
Proof.
  apply notApplicable_passes; try done.
  intros r ->%list_elem_of_singleton. done.
Defined.

(** X11: audits that have no numeric score and the display mode
    [informative] count as score 0: when no threshold is configured, reports
    that all carry such an audit fail the implicit [minScore] assertion,
    with expected 1 and actual 0, with every aggregation method. *)
Theorem informative_fails rs options :
  rs ≠ [] →
  (∀ r, r ∈ rs →
        score r = None ∧ scoreDisplayMode r = Some "informative"%string) →
  maxLength options = None → maxNumericValue options = None →
  minScore options = None →
  getAssertionResults (Some <$> rs) options
    = [mkResult MinScore one zero (replicate (length rs) zero) ">="%string].
Proof.
  intros Hne Hall Hl Hv Hs. unfold getAssertionResults.
  rewrite existsb_isUndefined_defined, omap_id_defined, Hl, Hv, Hs. simpl.
  rewrite (getAssertionResult_constant _ _ _ _ (Q2Qc (inject_Z 0)) Hne);
    [done|].
  intros r [Hsc Hd]%Hall. simpl. rewrite Hsc, Hd.
  by rewrite bool_decide_eq_false_2, bool_decide_eq_true_2.
Qed.

Lemma informative_fails_witness :
  getAssertionResults
    (Some <$> [{| score := None;
                  scoreDisplayMode := Some "informative"%string;
                  numericValue := None; details := None; title := None;
                  description := None |}])
    noOptions
  = [mkResult MinScore one zero [zero] ">="%string].
Proof.
  apply (informative_fails
           [{| score := None; scoreDisplayMode := Some "informative"%string;
               numericValue := None; details := None; title := None;
               description := None |}] noOptions); try done.
  intros r ->%list_elem_of_singleton. done.
Defined.

(** ** Budget deriver: when violations are emitted *)

(** X12: a batch in which no row is over budget (no truthy
    [sizeOverBudget], no non-empty [countOverBudget]) gives no violation;
    so does a batch whose audit results have no [details.items]. *)
Theorem budget_within_budget batch :
  (∀ row, row ∈ budgetRows batch →
          truthyNum (sizeOverBudget row) = false
          ∧ truthyStr (countOverBudget row) = false) →
  getBudgetAssertionResults batch = [].
Proof.
  intros Hrows. rewrite getBudgetAssertionResults_events.
  replace (flat_map rowEvents (budgetRows batch)) with
    ([] : list (string * option num * num)); [done|].
  symmetry. induction (budgetRows batch) as [|row rows IH]; [done|].
  simpl. rewrite IH by (intros; apply Hrows; by apply list_elem_of_further).
  destruct (Hrows row) as [Hs Hc]; [apply list_elem_of_here|].
  unfold rowEvents. by rewrite Hs, Hc.
Qed.

Lemma budget_within_budget_witness :
  getBudgetAssertionResults
    [emptyAudit; budgetAudit [budgetRow "script" (Some 1000%Z) None]]
  = [].
Proof.
  apply budget_within_budget.
  intros row ->%list_elem_of_singleton. done.
Defined.













(** ** What the dispatch throws *)

Lemma mapM_id_None {A : Type} (l : list (option A)) :
  mapM id l = None ↔ None ∈ l.
Proof.
  rewrite mapM_None, Exists_exists. split.
  - intros ([x|] & Hin & Hx); [done|]. exact Hin.
  - intros Hin. by exists None.
Qed.

(** X15: [getAssertionResultsForAudit] throws in three cases only: a
    TypeError for [performance-budget] when a report lacks the audit; the
    invalid-assertion error for [categories] with a property path that has
    not exactly one segment; and the same error for [resource-summary] with
    a property path that has not exactly two segments or whose second
    segment is neither [size] nor [count].  In every other case it returns
    results. *)
Theorem dispatch_throws auditId ap rs options lhrs e :
  getAssertionResultsForAudit auditId ap rs options lhrs = Throw e
  ↔ (auditId = "performance-budget"%string ∧ None ∈ rs ∧ e = TypeError)
    ∨ (auditId = "categories"%string
       ∧ ∃ p, ap = Some p ∧ length p ≠ 1 ∧ e = invalidAssertion p)
    ∨ (auditId = "resource-summary"%string
       ∧ ∃ p, ap = Some p
              ∧ (length p ≠ 2
                 ∨ (p !! 1 ≠ Some "size"%string
                    ∧ p !! 1 ≠ Some "count"%string))
              ∧ e = invalidAssertion p).
Proof.
  unfold getAssertionResultsForAudit.
  case_bool_decide as Hb; [subst auditId|].
  { destruct (mapM id rs) as [defined|] eqn:Hm.
    - split; [done|]. intros [(_ & Hin & _)|[[? _]|[? _]]]; [|done..].
      apply mapM_id_None in Hin. congruence.
    - apply mapM_id_None in Hm. split.
      + intros [= <-]. by left.
      + intros [(_ & _ & ->)|[[? _]|[? _]]]; done. }
  case_bool_decide as Hc; [subst auditId|].
  { destruct ap as [p|]; simpl.
    - unfold getCategoryAssertionResults. case_bool_decide as Hlen; simpl.
      + split; [done|].
        intros [[? _]|[(_ & p' & [= <-] & ? & _)|[? _]]]; done.
      + split.
        * intros [= <-]. right. left. split; [done|]. by exists p.
        * intros [[? _]|[(_ & p' & [= <-] & _ & ->)|[? _]]]; done.
    - split; [done|]. intros [[? _]|[(_ & p' & ? & _)|[? _]]]; done. }
  case_bool_decide as Hr; [subst auditId|].
  { destruct ap as [p|]; simpl.
    - destruct (decide (length p = 2)) as [Hlen|Hlen].
      + destruct p as [|p0 [|p1 [|p2 p]]]; try done. simpl.
        case_bool_decide as Hmem; simpl.
        * split; [done|].
          intros [[? _]|[[? _]|(_ & p' & [= <-] & Hbad & _)]]; try done.
          destruct Hbad as [?|[H1 H2]]; [done|]. simpl in H1, H2.
          apply elem_of_cons in Hmem as [->|Hmem]; [done|].
          apply list_elem_of_singleton in Hmem as ->. done.
        * split.
          -- intros [= <-]. right. right. split; [done|].
             eexists. split; [done|]. split; [|done]. right. simpl.
             split; intros [= ->]; apply Hmem.
             ++ apply list_elem_of_here.
             ++ apply list_elem_of_further, list_elem_of_here.
          -- intros [[? _]|[[? _]|(_ & p' & [= <-] & _ & ->)]]; done.
      + rewrite (bool_decide_eq_false_2 _ Hlen). simpl. split.
        * intros [= <-]. right. right. split; [done|].
          exists p. split; [done|]. split; [by left|done].
        * intros [[? _]|[[? _]|(_ & p' & [= <-] & _ & ->)]]; done.
    - split; [done|]. intros [[? _]|[[? _]|(_ & p' & ? & _)]]; done. }
  rewrite !andb_false_l. split; [done|].
  intros [[? _]|[[? _]|[? _]]]; done.
Qed.

Lemma dispatch_throws_witness :
  getAssertionResultsForAudit "performance-budget" None
    [Some (budgetAudit []); None] noOptions []
  = Throw TypeError.
Proof.
  apply dispatch_throws. left. split; [done|]. split; [|done].
  apply list_elem_of_further, list_elem_of_here.
Defined.

(** ** Assertion keys *)

Lemma split_nonempty s : split s ≠ [].
Proof.
  destruct s as [|c s]; [done|]. simpl.
  case_bool_decide; [done|]. by destruct (split s).
Qed.

Lemma join_cons_char c part parts :
  join (String c part :: parts) = String c (join (part :: parts)).
Proof. by destruct parts. Qed.

Lemma join_split s : join (split s) = s.
Proof.
  induction s as [|c s IH]; [done|]. simpl.
  pose proof (split_nonempty s) as Hne.
  case_bool_decide as Hc.
  - subst c. destruct (split s) as [|part parts]; [done|].
    change (join ("" :: part :: parts))%string
      with (String "." (join (part :: parts))).
    by rewrite IH.
  - destruct (split s) as [|part parts]; [done|].
    by rewrite join_cons_char, IH.
Qed.

(** X16: an assertion key is split without loss: joining the audit id and
    the property path of an audit to assert with dots gives back the key.
    The key is kept as [assertionKey], and the property path is absent
    exactly when the split gives the audit id alone. *)
Theorem assertion_key_round_trip splitMarkdownLink lhrs key :
  let a := auditToAssertOf splitMarkdownLink lhrs key in
  a_assertionKey a = key
  ∧ join (a_auditId a :: default [] (a_auditProperty a)) = key
  ∧ (a_auditProperty a = None ↔ split key = [a_auditId a]).
Proof.
  simpl. split; [done|].
  pose proof (join_split key) as Hjoin.
  pose proof (split_nonempty key) as Hne.
  destruct (split key) as [|auditId rest]; [done|]. simpl.
  destruct rest as [|p rest]; simpl; [by split|].
  split; [done|]. split; intros [=].
Qed.

(** ** The preset pattern *)

Lemma stripPrefix_Some prefix s rest :
  stripPrefix prefix s = Some rest ↔ s = (prefix ++ rest)%string.
Proof.
  revert s. induction prefix as [|a prefix IH]; intros s; simpl.
  - split; [by intros [= ->]|by intros ->].
  - destruct s as [|b s]; [done|]. case_bool_decide as Hab.
    + subst b. rewrite IH. split; [by intros ->|by intros [= ->]].
    + split; [done|]. intros [= ? _]. done.
Qed.

(** X17: the match of a preset name is sound and finds the usual form:
    when [presetMatch] captures a name, the preset is some text, then
    [lighthouse:], then that name up to the end, and the name has no line
    terminator; and a preset that is [lighthouse:] followed by a name
    without line terminator captures that name. *)
Theorem presetMatch_spec :
  (∀ s presetName,
     presetMatch s = Some presetName →
     noLineTerminator presetName = true
     ∧ ∃ before, s = (before ++ "lighthouse:" ++ presetName)%string)
  ∧ (∀ presetName,
       noLineTerminator presetName = true →
       presetMatch ("lighthouse:" ++ presetName) = Some presetName).
Proof.
  split.
  - intros s presetName. induction s as [|c s IH].
    + simpl. done.
    + cbn [presetMatch].
      destruct (stripPrefix "lighthouse:" (String c s)) as [rest|] eqn:Hstrip.
      * apply stripPrefix_Some in Hstrip.
        destruct (noLineTerminator rest) eqn:Hnl.
        -- intros [= <-]. split; [done|]. by exists ""%string.
        -- intros [Hn [before ->]]%IH. split; [done|].
           by exists (String c before).
      * intros [Hn [before ->]]%IH. split; [done|].
        by exists (String c before).
  - intros presetName Hnl.
    change ("lighthouse:" ++ presetName)%string
      with (String "l" ("ighthouse:" ++ presetName)).
    cbn [presetMatch].
    replace (stripPrefix "lighthouse:"
               (String "l" ("ighthouse:" ++ presetName)))
      with (Some presetName) by (symmetry; by apply stripPrefix_Some).
    by rewrite Hnl.
Qed.

Lemma presetMatch_spec_witness :
  presetMatch "lighthouse:recommended" = Some "recommended"%string.
Proof. by apply presetMatch_spec. Defined.

(** ** The resolver *)

Lemma uniq_NoDup keys : NoDup (uniq keys).
Proof.
  induction keys as [|k keys IH]; [constructor|]. simpl.
  apply NoDup_cons. split.
  - rewrite list_elem_of_filter. by intros [? _].
  - by apply NoDup_filter.
Qed.

Lemma uniq_single keys :
  length (uniq keys) ≤ 1 → ∀ k k', k ∈ keys → k' ∈ keys → k = k'.
Proof.
  destruct keys as [|k0 keys]; [by intros _ k k' ?%elem_of_nil|].
  simpl. intros Hlen.
  assert (∀ k, k ∈ keys → k = k0) as Hall.
  { intros k Hk. destruct (decide (k = k0)) as [|Hne]; [done|].
    assert (k ∈ filter (λ k', k' ≠ k0) (uniq keys)) as Hin
      by (by rewrite list_elem_of_filter, elem_of_uniq).
    destruct (filter _ _); [by apply elem_of_nil in Hin|simpl in Hlen; lia]. }
  intros k k' [->|Hk%Hall]%elem_of_cons [->|Hk'%Hall]%elem_of_cons;
    congruence.
Qed.

Lemma uniq_two keys k k' :
  k ∈ keys → k' ∈ keys → k ≠ k' → 1 < length (uniq keys).
Proof.
  intros Hk Hk' Hne.
  destruct (decide (length (uniq keys) ≤ 1)) as [Hlen|]; [|lia].
  by destruct (Hne (uniq_single _ Hlen _ _ Hk Hk')).
Qed.

Section ResolverProperties.

Variable kebabCase : string → string.
Variable merge : BaseOptions → BaseOptions → BaseOptions.
Variable requirePreset : string → completion BaseOptions.
Variable computeRepresentativeRuns : list (list (LHR * LHR)) → list LHR.
Variable splitMarkdownLink : string → list Segment.
Variable regExpTest : string → string → completion bool.

Let resolve :=
  resolveAssertionOptionsAndLhrs kebabCase merge requirePreset
    computeRepresentativeRuns splitMarkdownLink regExpTest.
Let evaluate :=
  getAllFilteredAssertionResults kebabCase merge requirePreset
    computeRepresentativeRuns splitMarkdownLink regExpTest.

Lemma filterC_Normal f lhrs kept :
  filterC f lhrs = Normal kept →
  kept `sublist_of` lhrs
  ∧ (∀ lhr, lhr ∈ lhrs → ∃ keep, f lhr = Normal keep)
  ∧ ∀ lhr, lhr ∈ kept ↔ lhr ∈ lhrs ∧ f lhr = Normal true.
Proof.
  revert kept. induction lhrs as [|lhr lhrs IH]; intros kept; simpl.
  - intros [= <-]. split; [done|]. split; [by intros ? ?%elem_of_nil|].
    intros lhr. rewrite elem_of_nil. tauto.
  - destruct (f lhr) as [keep|] eqn:Hf; simpl; [|done].
    destruct (filterC f lhrs) as [kept'|]; simpl; [|done].
    destruct (IH kept' eq_refl) as (Hsub & Hall & Hin).
    intros [= <-]. split; [|split].
    + destruct keep; [by apply sublist_skip|by apply sublist_cons].
    + intros lhr' [->|?]%elem_of_cons; [eauto|by apply Hall].
    + intros lhr'. rewrite elem_of_cons. destruct keep.
      * rewrite elem_of_cons, Hin. split.
        -- intros [->|[? ?]]; [by split; [left|]|by split; [right|]].
        -- intros [[->|?] ?]; [by left|by right].
      * rewrite Hin. split.
        -- intros [? ?]. by split; [right|].
        -- intros [[->|?] ?]; [congruence|done].
Qed.

Lemma resolve_lhrs baseOptions unfilteredLhrs resolved :
  resolve baseOptions unfilteredLhrs = Normal resolved →
  r_lhrs resolved `sublist_of` unfilteredLhrs
  ∧ length (uniq (map finalUrl (r_lhrs resolved))) ≤ 1
  ∧ r_url resolved = match r_lhrs resolved with
                     | lhr :: _ => finalUrl lhr
                     | [] => ""%string
                     end.
Proof.
  unfold resolve, resolveAssertionOptionsAndLhrs.
  destruct (presetMatch _) as [presetName|]; simpl.
  - destruct (requirePreset presetName) as [presetData|]; simpl; [|done].
    destruct (truthyStr _); simpl.
    + destruct (filterC _ _) as [lhrs|] eqn:Hf; simpl; [|done].
      apply filterC_Normal in Hf as [Hsub _].
      case_bool_decide; [done|]. intros [= <-]. simpl.
      split; [done|]. split; [lia|done].
    + case_bool_decide; [done|]. intros [= <-]. simpl.
      split; [done|]. split; [lia|done].
  - destruct (truthyStr _); simpl.
    + destruct (filterC _ _) as [lhrs|] eqn:Hf; simpl; [|done].
      apply filterC_Normal in Hf as [Hsub _].
      case_bool_decide; [done|]. intros [= <-]. simpl.
      split; [done|]. split; [lia|done].
    + case_bool_decide; [done|]. intros [= <-]. simpl.
      split; [done|]. split; [lia|done].
Qed.

(** X18: the reports a resolution keeps are among the reports given, in
    their order, and they all have one final URL, which is the URL of the
    resolution. *)
Theorem resolved_reports_share_url baseOptions unfilteredLhrs resolved :
  resolve baseOptions unfilteredLhrs = Normal resolved →
  r_lhrs resolved `sublist_of` unfilteredLhrs
  ∧ ∀ lhr, lhr ∈ r_lhrs resolved → finalUrl lhr = r_url resolved.
Proof.
  intros (Hsub & Hlen & Hurl)%resolve_lhrs. split; [done|].
  intros lhr Hlhr. rewrite Hurl.
  destruct (r_lhrs resolved) as [|lhr0 lhrs]; [by apply elem_of_nil in Hlhr|].
  apply (uniq_single _ Hlen).
  - change (finalUrl lhr ∈ finalUrl <$> (lhr0 :: lhrs)).
    by apply list_elem_of_fmap_2.
  - apply list_elem_of_here.
Qed.

(** X19: no two audits to assert have the same assertion key, and the keys
    are the normalized keys of the assertions. *)
Theorem auditsToAssert_distinct baseOptions unfilteredLhrs resolved :
  resolve baseOptions unfilteredLhrs = Normal resolved →
  NoDup (a_assertionKey <$> r_auditsToAssert resolved)
  ∧ ∀ key, key ∈ a_assertionKey <$> r_auditsToAssert resolved
           ↔ ∃ k, k ∈ fst <$> r_assertions resolved ∧ key = kebabCase k.
Proof.
  intros Hres.
  rewrite (resolve_auditsToAssert _ _ _ _ _ _ _ _ _ Hres).
  assert (∀ keys,
            a_assertionKey
              <$> map (auditToAssertOf splitMarkdownLink (r_lhrs resolved)) keys
            = keys) as Hkeys.
  { induction keys as [|k keys IH]; [done|]. simpl. by f_equal. }
  rewrite Hkeys. split; [apply uniq_NoDup|].
  intros key. rewrite elem_of_uniq.
  change (map kebabCase (map fst (r_assertions resolved)))
    with (kebabCase <$> (fst <$> r_assertions resolved)).
  rewrite list_elem_of_fmap. split; intros (k & ? & ?); by exists k.
Qed.

End ResolverProperties.

Lemma resolved_reports_share_url_witness :
  ∃ resolved,
    (r_lhrs resolved `sublist_of` [sampleLhr; sampleLhr])
    ∧ ∀ lhr, lhr ∈ r_lhrs resolved → finalUrl lhr = r_url resolved.
Proof.
  eexists.
  apply (resolved_reports_share_url kebabCase_model merge_model
           requirePreset_model computeRepresentativeRuns_model
           splitMarkdownLink_model regExpTest_model
           (baseOptionsOf sampleAssertions) [sampleLhr; sampleLhr]).
  by vm_compute.
Defined.

Lemma auditsToAssert_distinct_witness :
  ∃ resolved,
    NoDup (a_assertionKey <$> r_auditsToAssert resolved)
    ∧ r_assertions resolved = twoSpellings.
Proof.
  eexists. split.
  - eapply (auditsToAssert_distinct kebabCase_model merge_model
              requirePreset_model computeRepresentativeRuns_model
              splitMarkdownLink_model regExpTest_model
              (baseOptionsOf twoSpellings) [sampleLhr]).
    by vm_compute.
  - reflexivity.
Defined.

(** ** The loop over the audits to assert *)

Lemma mapM_Normal {A B : Type} (f : A → completion B) l k :
  mapM f l = Normal k → Forall2 (λ x y, f x = Normal y) l k.
Proof.
  revert k. induction l as [|x l IH]; intros k; simpl.
  - intros [= <-]. constructor.
  - destruct (f x) as [y|] eqn:Hf; simpl; [|done].
    destruct (mapM f l) as [k'|]; simpl; [|done].
    intros [= <-]. constructor; [done|by apply IH].
Qed.



Lemma assertAudit_results resolved a results r :
  assertAudit resolved a = Normal results → r ∈ results →
  let lvl := fst (normalizeAssertion
                    (getProperty (r_assertions resolved) (a_assertionKey a))) in
  lvl ≠ LevelOff ∧ level r = Some lvl
  ∧ auditId r = Some (a_auditId a) ∧ url r = Some (r_url resolved).
Proof.
  unfold assertAudit.
  destruct (normalizeAssertion _) as [lvl assertionOptions]. simpl.
  case_bool_decide as Hoff; [by intros [= <-] ?%elem_of_nil|].
  destruct (getAssertionResultsForAudit _ _ _ _ _) as [rs|]; simpl; [|done].
  intros [= <-] Hr.
  change (r ∈ finalResult a lvl (r_url resolved) <$> rs) in Hr.
  by apply list_elem_of_fmap in Hr as (r0 & -> & _).
Qed.

Section Pipeline.

Variable kebabCase : string → string.
Variable merge : BaseOptions → BaseOptions → BaseOptions.
Variable requirePreset : string → completion BaseOptions.
Variable computeRepresentativeRuns : list (list (LHR * LHR)) → list LHR.
Variable splitMarkdownLink : string → list Segment.
Variable regExpTest : string → string → completion bool.

Let resolve :=
  resolveAssertionOptionsAndLhrs kebabCase merge requirePreset
    computeRepresentativeRuns splitMarkdownLink regExpTest.
Let evaluate :=
  getAllFilteredAssertionResults kebabCase merge requirePreset
    computeRepresentativeRuns splitMarkdownLink regExpTest.

(** X20: without a preset and without a URL pattern, reports of two
    different final URLs make the evaluation throw "Can only assert one URL
    at a time!", whatever the assertions are; and reports of one final URL
    are all kept by the resolution. *)
Theorem one_url_at_a_time baseOptions lhrs :
  presetMatch (default ""%string (preset baseOptions)) = None →
  truthyStr (matchingUrlPattern baseOptions) = false →
  ((∃ lhr lhr', lhr ∈ lhrs ∧ lhr' ∈ lhrs ∧ finalUrl lhr ≠ finalUrl lhr') →
     evaluate baseOptions lhrs
       = Throw (JsError "Can only assert one URL at a time!"))
  ∧ ((∀ lhr lhr', lhr ∈ lhrs → lhr' ∈ lhrs → finalUrl lhr = finalUrl lhr') →
       ∃ resolved, resolve baseOptions lhrs = Normal resolved
                   ∧ r_lhrs resolved = lhrs).
Proof.
  intros Hpreset Hpattern.
  unfold evaluate, getAllFilteredAssertionResults, resolve,
    resolveAssertionOptionsAndLhrs.
  rewrite Hpreset. simpl. rewrite Hpattern. simpl. split.
  - intros (lhr & lhr' & Hin & Hin' & Hne).
    rewrite bool_decide_eq_true_2; [done|].
    apply (uniq_two _ (finalUrl lhr) (finalUrl lhr')); [| |done].
    + change (finalUrl lhr ∈ finalUrl <$> lhrs). by apply list_elem_of_fmap_2.
    + change (finalUrl lhr' ∈ finalUrl <$> lhrs). by apply list_elem_of_fmap_2.
  - intros Hsame. rewrite bool_decide_eq_false_2; [by eexists|].
    intros Hlen.
    destruct (uniq (map finalUrl lhrs)) as [|u [|u' us]] eqn:Hu;
      [simpl in Hlen; lia..|].
    assert (u ≠ u') as Hne.
    { pose proof (uniq_NoDup (map finalUrl lhrs)) as Hnd. rewrite Hu in Hnd.
      apply NoDup_cons in Hnd as [Hnd _]. intros ->. apply Hnd.
      apply list_elem_of_here. }
    assert (u ∈ finalUrl <$> lhrs) as (l1 & -> & Hl1)%list_elem_of_fmap.
    { apply elem_of_uniq. change (finalUrl <$> lhrs) with (map finalUrl lhrs).
      rewrite Hu. apply list_elem_of_here. }
    assert (u' ∈ finalUrl <$> lhrs) as (l2 & -> & Hl2)%list_elem_of_fmap.
    { apply elem_of_uniq. change (finalUrl <$> lhrs) with (map finalUrl lhrs).
      rewrite Hu. apply list_elem_of_further, list_elem_of_here. }
    by apply Hne, Hsame.
Qed.

(** X21: with no report and no preset to load, the evaluation returns no
    result and throws nothing: the URL pattern is not compiled and no
    assertion is evaluated. *)
Theorem no_reports_no_results baseOptions :
  presetMatch (default ""%string (preset baseOptions)) = None →
  evaluate baseOptions [] = Normal [].
Proof.
  intros Hpreset.
  unfold evaluate, getAllFilteredAssertionResults,
    resolveAssertionOptionsAndLhrs.
  rewrite Hpreset. simpl. by destruct (truthyStr _).
Qed.

(** X22: every result of an evaluation carries the URL of the resolution,
    the audit id of an audit to assert, and the level found for the key of
    that audit, which is not off. *)
Theorem results_are_annotated baseOptions lhrs results :
  evaluate baseOptions lhrs = Normal results →
  ∃ resolved,
    resolve baseOptions lhrs = Normal resolved
    ∧ ∀ r, r ∈ results →
        url r = Some (r_url resolved)
        ∧ ∃ a, a ∈ r_auditsToAssert resolved
               ∧ auditId r = Some (a_auditId a)
               ∧ level r
                 = Some (fst (normalizeAssertion
                                (getProperty (r_assertions resolved)
                                             (a_assertionKey a))))
               ∧ level r ≠ Some LevelOff.
Proof.
  unfold evaluate, getAllFilteredAssertionResults. fold resolve.
  destruct (resolve baseOptions lhrs) as [resolved|]; simpl; [|done].
  intros Hres. exists resolved. split; [done|].
  case_bool_decide; [by injection Hres as <-; intros r ?%elem_of_nil|].
  destruct (mapM _ _) as [k|] eqn:Hm; simpl in Hres; [|done].
  injection Hres as <-. apply mapM_Normal in Hm.
  intros r Hr. apply list_elem_of_In, in_concat in Hr as (ys & Hys & Hr).
  apply list_elem_of_In, list_elem_of_lookup in Hys as [i Hi].
  destruct (Forall2_lookup_r _ _ _ _ _ Hm Hi) as (a & Ha & Hrun).
  apply list_elem_of_In in Hr.
  destruct (assertAudit_results _ _ _ _ Hrun Hr) as (Hoff & Hlvl & Hid & Hurl).
  split; [done|]. exists a. split; [by eapply list_elem_of_lookup_2|].
  split; [done|]. split; [done|]. rewrite Hlvl. congruence.
Qed.


(** X24: without a preset, a non-empty URL pattern keeps exactly the
    reports whose final URL the pattern matches; the resolution succeeds
    only when the test of the pattern throws for no report. *)
Theorem pattern_filters_reports baseOptions lhrs resolved pattern :
  presetMatch (default ""%string (preset baseOptions)) = None →
  matchingUrlPattern baseOptions = Some pattern → pattern ≠ ""%string →
  resolve baseOptions lhrs = Normal resolved →
  (∀ lhr, lhr ∈ lhrs → ∃ keep, regExpTest pattern (finalUrl lhr) = Normal keep)
  ∧ ∀ lhr, lhr ∈ r_lhrs resolved
           ↔ lhr ∈ lhrs ∧ regExpTest pattern (finalUrl lhr) = Normal true.
Proof.
  intros Hpreset Hpattern Hne.
  unfold resolve, resolveAssertionOptionsAndLhrs.
  rewrite Hpreset. simpl. rewrite Hpattern.
  replace (truthyStr (Some pattern)) with true by (by destruct pattern).
  simpl. destruct (filterC _ _) as [kept|] eqn:Hf; simpl; [|done].
  apply filterC_Normal in Hf as (_ & Hall & Hin).
  case_bool_decide; [done|]. by intros [= <-].
Qed.

End Pipeline.

Lemma one_url_at_a_time_witness :
  getAllFilteredAssertionResults_model (baseOptionsOf sampleAssertions)
    [sampleLhr;
     {| finalUrl := "https://example.com/other"; categories := ∅;
        audits := ∅ |}]
  = Throw (JsError "Can only assert one URL at a time!").
Proof.
  eapply (one_url_at_a_time kebabCase_model merge_model requirePreset_model
            computeRepresentativeRuns_model splitMarkdownLink_model
            regExpTest_model); [reflexivity..|].
  eexists _, _. split; [apply list_elem_of_here|].
  split; [apply list_elem_of_further, list_elem_of_here|]. discriminate.
Defined.

Lemma no_reports_no_results_witness :
  getAllFilteredAssertionResults_model (baseOptionsOf sampleAssertions) []
  = Normal [].
Proof.
  apply (no_reports_no_results kebabCase_model merge_model
           requirePreset_model computeRepresentativeRuns_model
           splitMarkdownLink_model regExpTest_model).
  reflexivity.
Defined.

Lemma results_are_annotated_witness :
  ∃ results resolved,
    getAllFilteredAssertionResults_model (baseOptionsOf sampleAssertions)
      [sampleLhr] = Normal results
    ∧ ∀ r, r ∈ results → url r = Some (r_url resolved).
Proof.
  eexists.
  destruct (results_are_annotated kebabCase_model merge_model
              requirePreset_model computeRepresentativeRuns_model
              splitMarkdownLink_model regExpTest_model
              (baseOptionsOf sampleAssertions) [sampleLhr] _ eq_refl)
    as (resolved & _ & Hall).
  exists resolved. split; [reflexivity|]. intros r Hr. by apply Hall.
Defined.


Lemma pattern_filters_reports_witness :
  ∃ resolved,
    ∀ lhr, lhr ∈ r_lhrs resolved
           ↔ lhr ∈ [sampleLhr]
             ∧ regExpTest_model "example" (finalUrl lhr) = Normal true.
Proof.
  eexists.
  eapply (pattern_filters_reports kebabCase_model merge_model
            requirePreset_model computeRepresentativeRuns_model
            splitMarkdownLink_model regExpTest_model
            (base matrixWithPattern) [sampleLhr] _ "example"%string);
    [reflexivity|reflexivity|discriminate|by vm_compute].
Defined.

(** ** Finite values in the results *)





(** ** The property a deriver tags its results with *)

Lemma getAssertionResult_untagged rs m t e r :
  r ∈ getAssertionResult rs m t e → auditProperty r = None.
Proof.
  destruct (decide (failureToMeasure (map (AUDIT_TYPE_VALUE_GETTERS t) rs) m))
    as [H|H].
  - rewrite (getAssertionResult_not_measured _ _ _ _ H).
    by intros ->%list_elem_of_singleton.
  - rewrite (getAssertionResult_measured _ _ _ _ H). simpl.
    destruct (passesFn _ _ _); [by intros ?%elem_of_nil|].
    by intros ->%list_elem_of_singleton.
Qed.

Lemma getAssertionResults_untagged rs options r :
  r ∈ getAssertionResults rs options → auditProperty r = None.
Proof.
  unfold getAssertionResults.
  destruct (existsb isUndefined rs); [by intros ->%list_elem_of_singleton|].
  destruct (maxLength options), (maxNumericValue options),
    (minScore options); simpl; rewrite ?elem_of_app; intros Hr;
    repeat match goal with
      | H : _ ∨ _ |- _ => destruct H
      | H : _ ∈ [] |- _ => by apply elem_of_nil in H
      | H : _ ∈ getAssertionResult _ _ _ _ |- _ =>
          by apply getAssertionResult_untagged in H
      end.
Qed.

Lemma withAuditProperty_tagged key rs r :
  r ∈ map (withAuditProperty key) rs → auditProperty r = Some key.
Proof.
  change (r ∈ withAuditProperty key <$> rs → auditProperty r = Some key).
  by intros (r0 & -> & _)%list_elem_of_fmap.
Qed.

(** X26: the [auditProperty] of a result says which deriver made it: the
    category id for a [categories] assertion, the dotted path
    [<resourceType>.<metric>] for a [resource-summary] assertion, a size or
    count key of a budget row for [performance-budget], and nothing for any
    other audit. *)
Theorem results_are_tagged auditId ap rs options lhrs results r :
  getAssertionResultsForAudit auditId ap rs options lhrs = Normal results →
  r ∈ results →
  (auditId = "performance-budget"%string →
     ∃ rt, auditProperty r = Some (rt ++ ".size")%string
           ∨ auditProperty r = Some (rt ++ ".count")%string)
  ∧ (auditId = "categories"%string →
       ∀ p, ap = Some p → auditProperty r = p !! 0)
  ∧ (auditId = "resource-summary"%string →
       ∀ p, ap = Some p → auditProperty r = Some (join p))
  ∧ ((auditId ≠ "performance-budget"%string
      ∧ auditId ≠ "categories"%string
      ∧ auditId ≠ "resource-summary"%string)
     ∨ (auditId ≠ "performance-budget"%string ∧ ap = None) →
       auditProperty r = None).
Proof.
  unfold getAssertionResultsForAudit.
  case_bool_decide as Hb; [subst auditId|].
  { destruct (mapM id rs) as [defined|]; [|done]. intros [= <-] Hr.
    split; [|split; [done|split; [done|]]].
    - intros _. rewrite getBudgetAssertionResults_events in Hr.
      destruct (eventStep_invariant (flat_map rowEvents (budgetRows defined)))
        as (_ & _ & Hres).
      apply Hres in Hr as (epre & ev & epost & Heq & _ & Hr).
      apply getAssertionResultsForBudgetRow_spec in Hr as [Hr _].
      assert (ev ∈ flat_map rowEvents (budgetRows defined)) as Hev
        by (rewrite Heq; apply elem_of_app; right; apply list_elem_of_here).
      apply list_elem_of_In, in_flat_map in Hev as (row & _ & Hev).
      apply list_elem_of_In, rowEvents_cases in Hev as [[Hk _]|[Hk _]];
        exists (resourceType row); rewrite Hr, Hk; [by left|by right].
    - by intros [(? & _)|[? _]]. }
  case_bool_decide as Hc; [subst auditId|].
  { destruct ap as [p|]; simpl.
    - unfold getCategoryAssertionResults.
      case_bool_decide as Hlen; simpl; [|done].
      intros [= <-] Hr%withAuditProperty_tagged.
      split; [done|]. split; [|split; [done|]].
      + intros _ p' [= <-]. rewrite Hr.
        by destruct p as [|c [|]].
      + by intros [(_ & ? & _)|[_ ?]].
    - intros [= <-] Hr%getAssertionResults_untagged.
      split; [done|]. split; [by intros _ p [=]|]. by split. }
  case_bool_decide as Hr'; [subst auditId|].
  { destruct ap as [p|]; simpl.
    - destruct (_ || _); [done|].
      intros [= <-] Hr%withAuditProperty_tagged.
      split; [done|]. split; [done|]. split.
      + by intros _ p' [= <-].
      + by intros [(_ & _ & ?)|[_ ?]].
    - intros [= <-] Hr%getAssertionResults_untagged.
      split; [done|]. split; [done|]. split; [by intros _ p [=]|done]. }
  rewrite !andb_false_l. intros [= <-] Hr%getAssertionResults_untagged.
  by repeat split.
Qed.

Lemma results_are_tagged_witness :
  ∃ r, r ∈ [withAuditProperty "performance"
              (mkResult AuditRan one zero [] "==")]
       ∧ auditProperty r = ["performance"%string] !! 0.
Proof.
  eexists. split; [apply list_elem_of_here|].
  eapply (results_are_tagged "categories" (Some ["performance"%string]) []
            noOptions []); [reflexivity|apply list_elem_of_here|..]; done.
Defined.
